(** * amqp-dead-letter: a model of [dead_letter.go] and its properties

    The program is a single Go file.  Its pure parts (header lookup, the
    disposition resolver, the republish copy, the property and header
    tables) are embedded as functions; its effectful parts ([process],
    [work], [run], [main]) are embedded in a small monad that threads the
    history of calls made to the outside world (broker, prompt, files,
    standard output) and asks an environment for the answer to each call. *)

From Stdlib Require Import ZArith Lia Bool Sorted Permutation.
From Stdlib Require Import OrdersEx.
From stdpp Require Import gmap strings list fin_maps pretty.

Set Warnings "-register-all,-clear-no-such-hyp".

Local Open Scope string_scope.
Local Open Scope Z_scope.
Local Open Scope list_scope.

(** ** Data model *)

(** Values an [amqp.Table] can hold ([interface{}] in the source): a
    closed variant over the Go types the AMQP field-table encoding knows
    (nil, bool, the integer types, the float types by their bits,
    string, []byte, Decimal, time.Time, []interface{}, Table). *)
Inductive HVal : Type :=
  | HNil
  | HBool (b : bool)
  | HInt (n : Z)
  | HFloat (bits : Z)
  | HString (s : string)
  | HBytes (bs : string)
  | HDecimal (scale : Z) (value : Z)
  | HTime (unix : Z)
  | HArray (vs : list HVal)
  | HTable (t : gmap string HVal).

(** [amqp.Table] is [map[string]interface{}]. *)
Abbreviation Table := (gmap string HVal).

(** [time.Time]: seconds since January 1, year 1 00:00:00 UTC, the
    nanoseconds within that second, and the zone offset of its location. *)
Record Time : Type := mkTime { t_sec : Z; t_nsec : Z; t_offset : Z }.

(** The zero [time.Time{}]. *)
Definition zeroTime : Time := mkTime 0 0 0.

(** [Time.IsZero]: the instant January 1, year 1, 00:00:00 UTC. *)
Definition IsZero (t : Time) : bool := (t_sec t =? 0) && (t_nsec t =? 0).

(** Seconds between year 1 and 1970 ([unixToInternal] in package time). *)
Definition unixToInternal : Z := 62135596800.

(** [Time.Unix]. *)
Definition Unix (t : Time) : Z := t_sec t - unixToInternal.

(** [time.Unix(sec, 0)] in the location with the given offset. *)
Definition time_Unix (sec offset : Z) : Time := mkTime (sec + unixToInternal) 0 offset.

(** [amqp.Delivery]. *)
Module Delivery.
Record t : Type := mk {
  Headers : Table;
  ContentType : string;
  ContentEncoding : string;
  DeliveryMode : Z;
  Priority : Z;
  CorrelationId : string;
  ReplyTo : string;
  Expiration : string;
  MessageId : string;
  Timestamp : Time;
  Type_ : string;
  UserId : string;
  AppId : string;
  ConsumerTag : string;
  MessageCount : Z;
  DeliveryTag : Z;
  Redelivered : bool;
  Exchange : string;
  RoutingKey : string;
  Body : string
}.
End Delivery.

(** [amqp.Publishing]. *)
Module Publishing.
Record t : Type := mk {
  Headers : Table;
  ContentType : string;
  ContentEncoding : string;
  DeliveryMode : Z;
  Priority : Z;
  CorrelationId : string;
  ReplyTo : string;
  Expiration : string;
  MessageId : string;
  Timestamp : Time;
  Type_ : string;
  UserId : string;
  AppId : string;
  Body : string
}.
End Publishing.

(** The action codes ([const ( ... = iota ... )]). *)
Definition actionRepublishQueue : Z := 0.
Definition actionRepublishExchange : Z := 1.
Definition actionSaveToFile : Z := 2.
Definition actionDiscard : Z := 3.

(** ** Pure functions *)

(** The loop of [getHeader] over the entries of the table in the order
    the [range] statement visits them. *)
Fixpoint getHeader_range (entries : list (string * HVal)) (key : string) : string :=
  match entries with
  | [] => ""
  | (k, v) :: rest =>
      if String.eqb k key then
        match v with
        | HString s => s
        | _ => ""
        end
      else getHeader_range rest key
  end.

(** [getHeader].  Go visits a map in an unspecified order; the model
    visits [map_to_list], and [getHeader_any_order] shows that the order
    does not matter. *)
Definition getHeader (table : Table) (key : string) : string :=
  getHeader_range (map_to_list table) key.

(** [filename]. *)
Definition filename (del : Delivery.t) : string :=
  "dead-letter-" +:+ Delivery.MessageId del +:+ ".txt".

(** [publishing]. *)
Definition publishing (del : Delivery.t) : Publishing.t :=
  {| Publishing.Headers := Delivery.Headers del;
     Publishing.ContentType := Delivery.ContentType del;
     Publishing.ContentEncoding := Delivery.ContentEncoding del;
     Publishing.DeliveryMode := Delivery.DeliveryMode del;
     Publishing.Priority := Delivery.Priority del;
     Publishing.CorrelationId := Delivery.CorrelationId del;
     Publishing.ReplyTo := Delivery.ReplyTo del;
     Publishing.Expiration := Delivery.Expiration del;
     Publishing.MessageId := Delivery.MessageId del;
     Publishing.Timestamp := Delivery.Timestamp del;
     Publishing.Type_ := Delivery.Type_ del;
     Publishing.UserId := Delivery.UserId del;
     Publishing.AppId := Delivery.AppId del;
     Publishing.Body := Delivery.Body del |}.

(** [s != ""]. *)
Definition nonempty (s : string) : bool := negb (String.eqb s "").

(** The block of [process] that builds [options] and [actions]
    (the four [append] steps), as a function of the delivery. *)
Definition resolve (del : Delivery.t) : list string * list Z :=
  let exchange := getHeader (Delivery.Headers del) "x-first-death-exchange" in
  let queue := getHeader (Delivery.Headers del) "x-first-death-queue" in
  let options := [] in
  let actions := [] in
  let '(options, actions) :=
    if nonempty queue
    then (options ++ ["republish to queue " +:+ queue], actions ++ [actionRepublishQueue])
    else (options, actions) in
  let '(options, actions) :=
    if nonempty exchange
    then (options ++ ["republish to exchange " +:+ exchange], actions ++ [actionRepublishExchange])
    else (options, actions) in
  let '(options, actions) :=
    if nonempty (Delivery.MessageId del)
    then (options ++ ["save to file " +:+ filename del], actions ++ [actionSaveToFile])
    else (options, actions) in
  (options ++ ["discard"], actions ++ [actionDiscard]).

(** The line break ["\n"]. *)
Definition newline : string := String (Ascii.ascii_of_nat 10) "".

(** [a < b] on Go strings: byte-wise lexicographic order. *)
Definition string_lt (a b : string) : bool :=
  match String_as_OT.compare a b with
  | Lt => true
  | _ => false
  end.

(** One insertion step of the sort: [x] moves left past every element it
    is [less] than. *)
Fixpoint sort_insert {A : Type} (less : A -> A -> bool) (x : A) (sorted : list A) : list A :=
  match sorted with
  | [] => [x]
  | y :: rest => if less x y then x :: y :: rest else y :: sort_insert less x rest
  end.

(** [sort.Slice(x, less)] of the Go library: it leaves [x] a permutation
    of itself ordered by [less].  The model is an insertion sort (what
    the library runs on short slices); when no two elements compare
    equal, as for the rows sorted here, every correct sort returns the
    same list ([sorted_perm_unique]). *)
Definition sort_Slice {A : Type} (less : A -> A -> bool) (x : list A) : list A :=
  fold_left (fun sorted e => sort_insert less e sorted) x [].

(** The packages the program calls and whose code is outside it:
    [encoding/json], the formatting of [time.Time], and the table
    printer. *)
Class Library : Type := {
  (** the Go value [json.Unmarshal] stores into an [interface{}] *)
  JSON : Type;
  (** [json.Unmarshal(body, &payload)]: [None] when it returns an error *)
  json_Unmarshal : string -> option JSON;
  (** the text [Encode] writes for a value after [SetIndent(prefix, indent)];
      encoding a value that [json.Unmarshal] produced does not fail *)
  json_EncodeIndent : string -> string -> JSON -> string;
  (** [t.Format(layout)] *)
  time_Format : Time -> string -> string;
  (** whether [tableprinter.Print] can format a cell holding this value;
      on a row with a value it cannot format it panics *)
  tableprinter_formats : HVal -> bool
}.

(** [time.RFC3339]. *)
Definition RFC3339 : string := "2006-01-02T15:04:05Z07:00".

(** [type property struct]. *)
Module Property.
Record t : Type := mk { Name : string; Value : string }.
End Property.

(** [type header struct]. *)
Module Header.
Record t : Type := mk { Key : string; Value : HVal }.
End Header.

Section Rendering.
Context `{Library}.

(** [timestamp]. *)
Definition timestamp (del : Delivery.t) : string :=
  if IsZero (Delivery.Timestamp del) then ""
  else pretty (Unix (Delivery.Timestamp del)) +:+ " (" +:+
       time_Format (Delivery.Timestamp del) RFC3339 +:+ ")".

(** The [props] literal of [printProperties]. *)
Definition props (del : Delivery.t) : list Property.t :=
  [ Property.mk "message_id" (Delivery.MessageId del);
    Property.mk "type" (Delivery.Type_ del);
    Property.mk "routing_key" (Delivery.RoutingKey del);
    Property.mk "timestamp" (timestamp del);
    Property.mk "content_type" (Delivery.ContentType del);
    Property.mk "content_encoding" (Delivery.ContentEncoding del);
    Property.mk "correlation_id" (Delivery.CorrelationId del);
    Property.mk "reply_to" (Delivery.ReplyTo del);
    Property.mk "expiration" (Delivery.Expiration del);
    Property.mk "user_id" (Delivery.UserId del);
    Property.mk "app_id" (Delivery.AppId del) ].

(** The comparison given to [sort.Slice] in [printProperties]. *)
Definition property_less (a b : Property.t) : bool :=
  string_lt (Property.Name a) (Property.Name b).

(** [setProps] as [printProperties] hands it to [tableprinter.Print]:
    the properties with a value, then sorted. *)
Definition setProps (del : Delivery.t) : list Property.t :=
  sort_Slice property_less
    (filter (fun p => nonempty (Property.Value p) = true) (props del)).

(** The comparison given to [sort.Slice] in [printHeaders]. *)
Definition header_less (a b : Header.t) : bool :=
  string_lt (Header.Key a) (Header.Key b).

(** [headers] as [printHeaders] hands it to [tableprinter.Print], when
    [range del.Headers] visits the entries in the order [entries]. *)
Definition headers_range (entries : list (string * HVal)) : list Header.t :=
  sort_Slice header_less (map (fun kv => Header.mk (fst kv) (snd kv)) entries).

(** The same for the order of [map_to_list]; [headers_any_order] shows
    that the order of the visit does not change the rows. *)
Definition headers (del : Delivery.t) : list Header.t :=
  headers_range (map_to_list (Delivery.Headers del)).

(** [tableprinter.Print] returns on these rows: it can format the value
    of each. *)
Definition printable (rows : list Header.t) : bool :=
  forallb (fun row => tableprinter_formats (Header.Value row)) rows.
End Rendering.

(** ** The outside world *)

(** Go errors.  [errUsage] and the error of the save branch are the two
    the program makes itself; every other one comes from a call. *)
Inductive error : Type :=
  | errUsage
  | errNoMessageId
  | errExternal (msg : string).

(** [err.Error()]. *)
Definition error_string (e : error) : string :=
  match e with
  | errUsage => "usage: amqp-dead-letter <url> <queue>"
  | errNoMessageId => "cannot save to file without message_id"
  | errExternal msg => msg
  end.

(** An [*os.File]: standard output, or the file [os.Create] opened. *)
Inductive Writer : Type :=
  | Stdout
  | File (name : string).

(** The calls the program makes, each with the answer it got ([None] is
    a nil error). *)
Inductive Event : Type :=
  | EWrite (w : Writer) (text : string) (r : option string)
  | ETableProps (w : Writer) (rows : list Property.t)
  | ETableHeaders (w : Writer) (rows : list Header.t)
  | EDial (url : string) (r : option string)
  | EChannel (r : option string)
  | ENotify
  | EDone (closed : bool)
  | EGet (queue : string) (autoAck : bool) (r : Delivery.t * bool * option string)
  | EAsk (message : string) (options : list string) (r : string + Z)
  | EPublish (exchange key : string) (mandatory immediate : bool)
      (msg : Publishing.t) (r : option string)
  | EAck (tag : Z) (multiple : bool) (r : option string)
  | ECreate (name : string) (r : option string)
  | EClose (name : string) (r : option string).

(** The environment: the answer to each call, given everything that
    happened before it. *)
Record Env : Type := mkEnv {
  env_write : list Event -> Writer -> string -> option string;
  env_dial : list Event -> string -> option string;
  env_channel : list Event -> option string;
  env_done : list Event -> bool;
  env_get : list Event -> string -> bool -> Delivery.t * bool * option string;
  env_ask : list Event -> string -> list string -> string + Z;
  env_publish : list Event -> string -> string -> bool -> bool -> Publishing.t -> option string;
  env_ack : list Event -> Z -> bool -> option string;
  env_create : list Event -> string -> option string;
  env_close : list Event -> string -> option string
}.

(** How a Go function ends: it returns (a value, with a nil error), it
    returns an error, it panics, or the model ran out of fuel before it
    ended. *)
Inductive Outcome (A : Type) : Type :=
  | Ok (a : A)
  | Fail (e : error)
  | Panic
  | OutOfFuel.
Arguments Ok {A} a.
Arguments Fail {A} e.
Arguments Panic {A}.
Arguments OutOfFuel {A}.

(** A computation reads the history of calls made before it started and
    gives its outcome together with the calls it made itself, in order. *)
Definition M (A : Type) : Type := list Event -> Outcome A * list Event.

Definition ret {A : Type} (a : A) : M A := fun _ => (Ok a, []).

Definition bind {A B : Type} (m : M A) (f : A -> M B) : M B :=
  fun h =>
    match m h with
    | (Ok a, t) => let '(o, t') := f a (h ++ t) in (o, t ++ t')
    | (Fail e, t) => (Fail e, t)
    | (Panic, t) => (Panic, t)
    | (OutOfFuel, t) => (OutOfFuel, t)
    end.

(** [return err] *)
Definition fail {A : Type} (e : error) : M A := fun _ => (Fail e, []).

Definition panic {A : Type} : M A := fun _ => (Panic, []).

(** A call whose returned error the caller drops. *)
Definition ignore_error (m : M unit) : M unit :=
  fun h =>
    match m h with
    | (Fail _, t) => (Ok tt, t)
    | r => r
    end.

(** [if err != nil { return err }] *)
Definition check (r : option string) : M unit :=
  match r with
  | Some msg => fail (errExternal msg)
  | None => ret tt
  end.

Declare Scope go_scope.
Delimit Scope go_scope with go.
Notation "'let*' x := m 'in' k" := (bind m (fun x => k))
  (at level 10, x name, m at level 100, k at level 200) : go_scope.
Notation "m >> k" := (bind m (fun _ => k))
  (at level 90, right associativity) : go_scope.
Local Open Scope go_scope.

(** ** The program *)

Section Program.
Context `{Library} (env : Env).

(** One call to the outside: ask the environment, record the call. *)
Definition call {A : Type} (answer : list Event -> A) (ev : A -> Event) : M A :=
  fun h => let r := answer h in (Ok r, [ev r]).

(** [fmt.Fprintln(f, s)], giving the returned error. *)
Definition Fprintln (f : Writer) (s : string) : M (option string) :=
  call (fun h => env_write env h f (s +:+ newline)) (EWrite f (s +:+ newline)).

(** [fmt.Println(s)] and [fmt.Printf] with a final line break: the
    source drops what they return. *)
Definition Println (s : string) : M unit :=
  Fprintln Stdout s >> ret tt.

(** [tableprinter.Print(f, setProps)]: the rows go to the table printer,
    which returns no error to the caller; the cells are strings, which
    it writes as they are. *)
Definition tableprinter_Print_props (f : Writer) (rows : list Property.t) : M unit :=
  fun _ => (Ok tt, [ETableProps f rows]).

(** [tableprinter.Print(f, headers)]: the values are [interface{}], and
    the printer panics on a row it cannot format; a call that panics
    has no answer and leaves no record. *)
Definition tableprinter_Print_headers (f : Writer) (rows : list Header.t) : M unit :=
  fun _ => if printable rows then (Ok tt, [ETableHeaders f rows]) else (Panic, []).

(** [enc.Encode(payload)] on [f] after [enc.SetIndent(prefix, indent)]:
    one write of the encoded text. *)
Definition Encode (f : Writer) (prefix indent : string) (payload : JSON) : M (option string) :=
  call (fun h => env_write env h f (json_EncodeIndent prefix indent payload))
       (EWrite f (json_EncodeIndent prefix indent payload)).

(** [printProperties]. *)
Definition printProperties (f : Writer) (del : Delivery.t) : M unit :=
  let* err := Fprintln f "PROPERTIES" in
  check err >>
  tableprinter_Print_props f (setProps del) >>
  ret tt.

(** [printHeaders]. *)
Definition printHeaders (f : Writer) (del : Delivery.t) : M unit :=
  let* err := Fprintln f "HEADERS" in
  check err >>
  tableprinter_Print_headers f (headers del) >>
  ret tt.

(** [printPayload]. *)
Definition printPayload (f : Writer) (del : Delivery.t) : M unit :=
  let* err := Fprintln f "PAYLOAD" in
  check err >>
  if String.eqb (Delivery.ContentType del) "application/json" then
    match json_Unmarshal (Delivery.Body del) with
    | Some payload =>
        let* err := Encode f "" "  " payload in
        check err >>
        ret tt
    | None => ret tt
    end
  else
    let* err := Fprintln f (Delivery.Body del) in
    check err.

(** [printDelivery]. *)
Definition printDelivery (f : Writer) (del : Delivery.t) : M unit :=
  printProperties f del >>
  printHeaders f del >>
  printPayload f del >>
  ret tt.

(** [ch.Publish(exchange, key, mandatory, immediate, msg)]. *)
Definition Publish (exchange key : string) (mandatory immediate : bool)
    (msg : Publishing.t) : M (option string) :=
  call (fun h => env_publish env h exchange key mandatory immediate msg)
       (EPublish exchange key mandatory immediate msg).

(** [del.Acknowledger.Ack(tag, multiple)]. *)
Definition Ack (tag : Z) (multiple : bool) : M (option string) :=
  call (fun h => env_ack env h tag multiple) (EAck tag multiple).

(** [survey.AskOne(&survey.Select{Message, Options}, &answer)]: the
    error, or the index stored in [answer]. *)
Definition AskOne (message : string) (options : list string) : M (string + Z) :=
  call (fun h => env_ask env h message options) (EAsk message options).

(** [os.Create(name)]. *)
Definition Create (name : string) : M (option string) :=
  call (fun h => env_create env h name) (ECreate name).

(** [f.Close()]. *)
Definition Close (name : string) : M (option string) :=
  call (fun h => env_close env h name) (EClose name).

(** [actions[answer]]: an index outside the slice panics. *)
Definition index (actions : list Z) (answer : Z) : M Z :=
  if answer <? 0 then panic
  else match actions !! Z.to_nat answer with
       | Some a => ret a
       | None => panic
       end.

(** [process]. *)
Definition process (del : Delivery.t) : M unit :=
  Println ("MESSAGE " +:+ pretty (Delivery.DeliveryTag del) +:+ " (" +:+
           pretty (Delivery.MessageCount del) +:+ " remaining)") >>
  ignore_error (printDelivery Stdout del) >>
  let exchange := getHeader (Delivery.Headers del) "x-first-death-exchange" in
  let queue := getHeader (Delivery.Headers del) "x-first-death-queue" in
  let '(options, actions) := resolve del in
  let* answer := AskOne "choose an action" options in
  match answer with
  | inl msg => fail (errExternal msg)
  | inr answer =>
      let* action := index actions answer in
      if action =? actionRepublishQueue then
        let* err := Publish "" queue false false (publishing del) in
        check err >>
        Println ("republished directly to queue " +:+ queue) >>
        let* err := Ack (Delivery.DeliveryTag del) false in
        check err
      else if action =? actionRepublishExchange then
        let* err := Publish exchange (Delivery.RoutingKey del) false false (publishing del) in
        check err >>
        Println ("republished to exchange " +:+ exchange) >>
        let* err := Ack (Delivery.DeliveryTag del) false in
        check err
      else if action =? actionSaveToFile then
        if String.eqb (Delivery.MessageId del) "" then fail errNoMessageId
        else
          let* err := Create (filename del) in
          check err >>
          printDelivery (File (filename del)) del >>
          let* err := Close (filename del) in
          check err >>
          let* err := Ack (Delivery.DeliveryTag del) false in
          check err
      else if action =? actionDiscard then
        let* err := Ack (Delivery.DeliveryTag del) false in
        check err
      else ret tt
  end.

(** What one pass through the body of the [for] of [work] does to the
    loop: go round again, or [return nil]. *)
Inductive Loop : Type :=
  | Running
  | Stopped.

(** The body of the [for] in [work]: the [select] on [ctx.Done()]
    with its [default] branch. *)
Definition work_body (queue : string) : M Loop :=
  let* closed := call (env_done env) EDone in
  if closed : bool then ret Stopped
  else
    let* got := call (fun h => env_get env h queue false) (EGet queue false) in
    let '(del, ok, err) := got in
    check err >>
    if negb ok then
      Println "no messages left" >>
      ret Stopped
    else
      process del >>
      ret Running.

(** [work]: the loop, run for at most [fuel] passes. *)
Fixpoint work (fuel : nat) (queue : string) : M unit :=
  match fuel with
  | O => fun _ => (OutOfFuel, [])
  | S fuel' =>
      let* state := work_body queue in
      match state with
      | Running => work fuel' queue
      | Stopped => ret tt
      end
  end.

(** [run], given [os.Args]. *)
Definition run (fuel : nat) (args : list string) : M unit :=
  match args with
  | [_; url; queue] =>
      if String.eqb url "" then fail errUsage
      else if String.eqb queue "" then fail errUsage
      else
        let* err := call (fun h => env_dial env h url) (EDial url) in
        check err >>
        let* err := call (env_channel env) EChannel in
        check err >>
        (fun _ => (Ok tt, [ENotify])) >>
        work fuel queue
  | _ => fail errUsage
  end.

(** [main]: the exit status of the process ([None] while the loop is
    still running when the fuel ends) and the calls made.  A panic that
    nothing recovers ends a Go program with status 2. *)
Definition main (fuel : nat) (args : list string) : option Z * list Event :=
  match run fuel args [] with
  | (Ok _, t) => (Some 0, t)
  | (Fail e, t) => (Some 1, t ++ (Println (error_string e) t).2)
  | (Panic, t) => (Some 2, t)
  | (OutOfFuel, t) => (None, t)
  end.
End Program.

(** ** Specification-side definitions *)

(** The dynamic type of a header value is [string]. *)
Definition is_string (v : HVal) : bool :=
  match v with
  | HString _ => true
  | _ => false
  end.

(** What [getHeader] yields for the value stored under a key. *)
Definition header_text (v : option HVal) : string :=
  match v with
  | Some (HString s) => s
  | _ => ""
  end.

(** A header that is not empty, in the plain sense of the words: the
    table holds a value under the key, and the value is not nil, not the
    empty string and not the empty byte string. *)
Definition header_nonempty (table : Table) (key : string) : bool :=
  match table !! key with
  | None | Some HNil | Some (HString "") | Some (HBytes "") => false
  | Some _ => true
  end.

(** The header holds the non-empty string [s]. *)
Definition header_names (table : Table) (key : string) (s : string) : Prop :=
  table !! key = Some (HString s) /\ s ≠ "".

(** The dispositions the specification offers for a delivery, in its
    order: queue, exchange, file, and always discard. *)
Definition offered (del : Delivery.t) : list Z :=
  (if nonempty (getHeader (Delivery.Headers del) "x-first-death-queue")
   then [actionRepublishQueue] else []) ++
  (if nonempty (getHeader (Delivery.Headers del) "x-first-death-exchange")
   then [actionRepublishExchange] else []) ++
  (if nonempty (Delivery.MessageId del) then [actionSaveToFile] else []) ++
  [actionDiscard].

(** The label the specification gives each disposition. *)
Definition label (del : Delivery.t) (action : Z) : string :=
  if action =? actionRepublishQueue then
    "republish to queue " +:+ getHeader (Delivery.Headers del) "x-first-death-queue"
  else if action =? actionRepublishExchange then
    "republish to exchange " +:+ getHeader (Delivery.Headers del) "x-first-death-exchange"
  else if action =? actionSaveToFile then
    "save to file dead-letter-" +:+ Delivery.MessageId del +:+ ".txt"
  else "discard".

(** The delivery with its header table replaced. *)
Definition with_Headers (table : Table) (del : Delivery.t) : Delivery.t :=
  {| Delivery.Headers := table;
     Delivery.ContentType := Delivery.ContentType del;
     Delivery.ContentEncoding := Delivery.ContentEncoding del;
     Delivery.DeliveryMode := Delivery.DeliveryMode del;
     Delivery.Priority := Delivery.Priority del;
     Delivery.CorrelationId := Delivery.CorrelationId del;
     Delivery.ReplyTo := Delivery.ReplyTo del;
     Delivery.Expiration := Delivery.Expiration del;
     Delivery.MessageId := Delivery.MessageId del;
     Delivery.Timestamp := Delivery.Timestamp del;
     Delivery.Type_ := Delivery.Type_ del;
     Delivery.UserId := Delivery.UserId del;
     Delivery.AppId := Delivery.AppId del;
     Delivery.ConsumerTag := Delivery.ConsumerTag del;
     Delivery.MessageCount := Delivery.MessageCount del;
     Delivery.DeliveryTag := Delivery.DeliveryTag del;
     Delivery.Redelivered := Delivery.Redelivered del;
     Delivery.Exchange := Delivery.Exchange del;
     Delivery.RoutingKey := Delivery.RoutingKey del;
     Delivery.Body := Delivery.Body del |}.

(** Rows in strictly increasing order of their key. *)
Definition sorted_by {A : Type} (key : A -> string) (rows : list A) : Prop :=
  StronglySorted (fun a b => string_lt (key a) (key b) = true) rows.

(** The names of the fixed property set, and the properties of a
    delivery listed in the lexicographic order of those names. *)
Definition property_names : list string :=
  [ "message_id"; "type"; "routing_key"; "timestamp"; "content_type";
    "content_encoding"; "correlation_id"; "reply_to"; "expiration";
    "user_id"; "app_id" ].

Definition props_by_name `{Library} (del : Delivery.t) : list Property.t :=
  [ Property.mk "app_id" (Delivery.AppId del);
    Property.mk "content_encoding" (Delivery.ContentEncoding del);
    Property.mk "content_type" (Delivery.ContentType del);
    Property.mk "correlation_id" (Delivery.CorrelationId del);
    Property.mk "expiration" (Delivery.Expiration del);
    Property.mk "message_id" (Delivery.MessageId del);
    Property.mk "reply_to" (Delivery.ReplyTo del);
    Property.mk "routing_key" (Delivery.RoutingKey del);
    Property.mk "timestamp" (timestamp del);
    Property.mk "type" (Delivery.Type_ del);
    Property.mk "user_id" (Delivery.UserId del) ].

(** ** Classifying calls *)

Definition is_done (e : Event) : bool :=
  match e with EDone _ => true | _ => false end.

Definition is_get (e : Event) : bool :=
  match e with EGet _ _ _ => true | _ => false end.

Definition is_ask (e : Event) : bool :=
  match e with EAsk _ _ _ => true | _ => false end.

Definition is_ack (e : Event) : bool :=
  match e with EAck _ _ _ => true | _ => false end.

Definition is_close (e : Event) : bool :=
  match e with EClose _ _ => true | _ => false end.

(** A write to [f], or a table printed on [f]. *)
Definition writes_to (f : Writer) (e : Event) : Prop :=
  match e with
  | EWrite w _ _ | ETableProps w _ | ETableHeaders w _ => w = f
  | _ => False
  end.

(** How many of the calls so far satisfy [p]. *)
Definition count (p : Event -> bool) (h : list Event) : nat :=
  length (List.filter p h).

(** ** The runs of the program, as relations on outcomes and traces *)

(** What [if err != nil { return err }] makes of the last call. *)
Definition done_or (r : option string) : Outcome unit :=
  match r with
  | Some msg => Fail (errExternal msg)
  | None => Ok tt
  end.

Section Runs.
Context `{Library}.

(** The three headings and tables [printDelivery] writes before the
    payload, when no write fails and the printer formats the rows. *)
Definition tables (f : Writer) (del : Delivery.t) : list Event :=
  [ EWrite f ("PROPERTIES" +:+ newline) None;
    ETableProps f (setProps del);
    EWrite f ("HEADERS" +:+ newline) None;
    ETableHeaders f (headers del) ].

(** The runs of [printDelivery f del]: outcome and calls made. *)
Inductive rendered (f : Writer) (del : Delivery.t) : Outcome unit -> list Event -> Prop :=
  | rendered_properties_fail (msg : string) :
      rendered f del (Fail (errExternal msg))
        [EWrite f ("PROPERTIES" +:+ newline) (Some msg)]
  | rendered_headers_fail (msg : string) :
      rendered f del (Fail (errExternal msg))
        [ EWrite f ("PROPERTIES" +:+ newline) None;
          ETableProps f (setProps del);
          EWrite f ("HEADERS" +:+ newline) (Some msg) ]
  | rendered_headers_panic :
      printable (headers del) = false ->
      rendered f del Panic
        [ EWrite f ("PROPERTIES" +:+ newline) None;
          ETableProps f (setProps del);
          EWrite f ("HEADERS" +:+ newline) None ]
  | rendered_payload_fail (msg : string) :
      printable (headers del) = true ->
      rendered f del (Fail (errExternal msg))
        (tables f del ++ [EWrite f ("PAYLOAD" +:+ newline) (Some msg)])
  | rendered_json (payload : JSON) (r : option string) :
      printable (headers del) = true ->
      Delivery.ContentType del = "application/json" ->
      json_Unmarshal (Delivery.Body del) = Some payload ->
      rendered f del (done_or r)
        (tables f del ++
         [ EWrite f ("PAYLOAD" +:+ newline) None;
           EWrite f (json_EncodeIndent "" "  " payload) r ])
  | rendered_malformed :
      printable (headers del) = true ->
      Delivery.ContentType del = "application/json" ->
      json_Unmarshal (Delivery.Body del) = None ->
      rendered f del (Ok tt)
        (tables f del ++ [EWrite f ("PAYLOAD" +:+ newline) None])
  | rendered_text (r : option string) :
      printable (headers del) = true ->
      Delivery.ContentType del ≠ "application/json" ->
      rendered f del (done_or r)
        (tables f del ++
         [ EWrite f ("PAYLOAD" +:+ newline) None;
           EWrite f (Delivery.Body del +:+ newline) r ]).

(** The prompt of [process] with the operator's answer. *)
Definition asked (del : Delivery.t) (r : string + Z) : Event :=
  EAsk "choose an action" (resolve del).1 r.

(** [actions[answer]] is [action]. *)
Definition picked (del : Delivery.t) (answer action : Z) : Prop :=
  0 <= answer /\ (resolve del).2 !! Z.to_nat answer = Some action.

(** The runs of [process] from the prompt on: outcome and calls made. *)
Inductive acted (del : Delivery.t) : Outcome unit -> list Event -> Prop :=
  | acted_ask_fail (msg : string) :
      acted del (Fail (errExternal msg)) [asked del (inl msg)]
  | acted_out_of_range (answer : Z) :
      (forall action, ~ picked del answer action) ->
      acted del Panic [asked del (inr answer)]
  | acted_queue_publish_fail (answer : Z) (msg : string) :
      picked del answer actionRepublishQueue ->
      acted del (Fail (errExternal msg))
        [ asked del (inr answer);
          EPublish "" (getHeader (Delivery.Headers del) "x-first-death-queue")
            false false (publishing del) (Some msg) ]
  | acted_queue (answer : Z) (r0 r : option string) :
      picked del answer actionRepublishQueue ->
      acted del (done_or r)
        [ asked del (inr answer);
          EPublish "" (getHeader (Delivery.Headers del) "x-first-death-queue")
            false false (publishing del) None;
          EWrite Stdout
            (("republished directly to queue " +:+
              getHeader (Delivery.Headers del) "x-first-death-queue") +:+ newline) r0;
          EAck (Delivery.DeliveryTag del) false r ]
  | acted_exchange_publish_fail (answer : Z) (msg : string) :
      picked del answer actionRepublishExchange ->
      acted del (Fail (errExternal msg))
        [ asked del (inr answer);
          EPublish (getHeader (Delivery.Headers del) "x-first-death-exchange")
            (Delivery.RoutingKey del) false false (publishing del) (Some msg) ]
  | acted_exchange (answer : Z) (r0 r : option string) :
      picked del answer actionRepublishExchange ->
      acted del (done_or r)
        [ asked del (inr answer);
          EPublish (getHeader (Delivery.Headers del) "x-first-death-exchange")
            (Delivery.RoutingKey del) false false (publishing del) None;
          EWrite Stdout
            (("republished to exchange " +:+
              getHeader (Delivery.Headers del) "x-first-death-exchange") +:+ newline) r0;
          EAck (Delivery.DeliveryTag del) false r ]
  | acted_save_create_fail (answer : Z) (msg : string) :
      picked del answer actionSaveToFile ->
      acted del (Fail (errExternal msg))
        [asked del (inr answer); ECreate (filename del) (Some msg)]
  | acted_save_write_fail (answer : Z) (msg : string) (written : list Event) :
      picked del answer actionSaveToFile ->
      rendered (File (filename del)) del (Fail (errExternal msg)) written ->
      acted del (Fail (errExternal msg))
        ([asked del (inr answer); ECreate (filename del) None] ++ written)
  | acted_save_panic (answer : Z) (written : list Event) :
      picked del answer actionSaveToFile ->
      rendered (File (filename del)) del Panic written ->
      acted del Panic
        ([asked del (inr answer); ECreate (filename del) None] ++ written)
  | acted_save_close_fail (answer : Z) (msg : string) (written : list Event) :
      picked del answer actionSaveToFile ->
      rendered (File (filename del)) del (Ok tt) written ->
      acted del (Fail (errExternal msg))
        ([asked del (inr answer); ECreate (filename del) None] ++ written ++
         [EClose (filename del) (Some msg)])
  | acted_save (answer : Z) (r : option string) (written : list Event) :
      picked del answer actionSaveToFile ->
      rendered (File (filename del)) del (Ok tt) written ->
      acted del (done_or r)
        ([asked del (inr answer); ECreate (filename del) None] ++ written ++
         [EClose (filename del) None; EAck (Delivery.DeliveryTag del) false r])
  | acted_discard (answer : Z) (r : option string) :
      picked del answer actionDiscard ->
      acted del (done_or r)
        [asked del (inr answer); EAck (Delivery.DeliveryTag del) false r].

(** The line [process] prints first. *)
Definition announced (del : Delivery.t) (r : option string) : Event :=
  EWrite Stdout
    (("MESSAGE " +:+ pretty (Delivery.DeliveryTag del) +:+ " (" +:+
      pretty (Delivery.MessageCount del) +:+ " remaining)") +:+ newline) r.

(** The runs of [process]: the announcement, the display on standard
    output (whose error is dropped, and whose panic ends the run), then
    the prompt and the action. *)
Inductive processed (del : Delivery.t) : Outcome unit -> list Event -> Prop :=
  | processed_display_panic (r0 : option string) (display : list Event) :
      rendered Stdout del Panic display ->
      processed del Panic (announced del r0 :: display)
  | processed_intro (r0 : option string) (shown : Outcome unit)
      (display rest : list Event) (o : Outcome unit) :
      rendered Stdout del shown display ->
      shown ≠ Panic ->
      acted del o rest ->
      processed del o (announced del r0 :: display ++ rest).
End Runs.

(** ** Reading a trace *)

(** The acknowledgements in a trace: tag, [multiple] flag, answer. *)
Definition acks (t : list Event) : list (Z * bool * option string) :=
  omap (fun e => match e with EAck tag multiple r => Some (tag, multiple, r) | _ => None end) t.

(** The publishes: exchange, routing key, message. *)
Definition publishes (t : list Event) : list (string * string * Publishing.t) :=
  omap (fun e => match e with
                 | EPublish exchange key _ _ msg _ => Some (exchange, key, msg)
                 | _ => None
                 end) t.

(** The files created, with the answer. *)
Definition creates (t : list Event) : list (string * option string) :=
  omap (fun e => match e with ECreate name r => Some (name, r) | _ => None end) t.

(** The files closed, with the answer. *)
Definition closes (t : list Event) : list (string * option string) :=
  omap (fun e => match e with EClose name r => Some (name, r) | _ => None end) t.

(** The operator's answers. *)
Definition answers (t : list Event) : list (string + Z) :=
  omap (fun e => match e with EAsk _ _ r => Some r | _ => None end) t.

(** The writes that failed: writer and error. *)
Definition failed_writes (t : list Event) : list (Writer * string) :=
  omap (fun e => match e with EWrite w _ (Some msg) => Some (w, msg) | _ => None end) t.

(** What was sent to files: writes and tables. *)
Definition file_output (t : list Event) : list Event :=
  List.filter (fun e => match e with
                        | EWrite (File _) _ _ | ETableProps (File _) _
                        | ETableHeaders (File _) _ => true
                        | _ => false
                        end) t.


(** The fetches: queue, [autoAck] flag, whether a message came, error. *)
Definition gets (t : list Event) : list (string * bool * bool * option string) :=
  omap (fun e => match e with
                 | EGet queue autoAck (_, ok, err) => Some (queue, autoAck, ok, err)
                 | _ => None
                 end) t.

(** What the polls of the cancellation signal saw. *)
Definition polls (t : list Event) : list bool :=
  omap (fun e => match e with EDone closed => Some closed | _ => None end) t.

(** The process got exactly two positional inputs, both non-empty
    ([os.Args] also holds the program name). *)
Definition usable (args : list string) : bool :=
  (length args =? 3)%nat && nonempty (nth 1 args "") && nonempty (nth 2 args "").

(** ** The loop *)

(** What a call does to the number of messages fetched and not yet
    acknowledged: a fetch that brings a message adds one, an
    acknowledgement the broker accepts takes one away. *)
Definition delta (e : Event) : Z :=
  match e with
  | EGet _ _ (_, true, None) => 1
  | EAck _ _ None => -1
  | _ => 0
  end.

(** The number of messages in flight after the calls of [t]. *)
Definition unacked (t : list Event) : Z :=
  foldr (fun e n => delta e + n) 0 t.

(** The notice of an empty queue. *)
Definition drained (r : option string) : Event :=
  EWrite Stdout ("no messages left" +:+ newline) r.

Section Loop.
Context `{Library}.

(** The runs of [work] with [fuel] passes left, pass by pass: the loop
    is in [Running] until a pass ends it. *)
Inductive looped (queue : string) : nat -> Outcome unit -> list Event -> Prop :=
  | looped_running :
      looped queue 0 OutOfFuel []
  | looped_cancelled (fuel : nat) :
      looped queue (S fuel) (Ok tt) [EDone true]
  | looped_fetch_failed (fuel : nat) (del : Delivery.t) (ok : bool) (msg : string) :
      looped queue (S fuel) (Fail (errExternal msg))
        [EDone false; EGet queue false (del, ok, Some msg)]
  | looped_drained (fuel : nat) (del : Delivery.t) (r : option string) :
      looped queue (S fuel) (Ok tt)
        [EDone false; EGet queue false (del, false, None); drained r]
  | looped_process_failed (fuel : nat) (del : Delivery.t) (o : Outcome unit)
      (t : list Event) :
      processed del o t -> o ≠ Ok tt ->
      looped queue (S fuel) o
        ([EDone false; EGet queue false (del, true, None)] ++ t)
  | looped_again (fuel : nat) (del : Delivery.t) (t : list Event)
      (o : Outcome unit) (t' : list Event) :
      processed del (Ok tt) t ->
      looped queue fuel o t' ->
      looped queue (S fuel) o
        ([EDone false; EGet queue false (del, true, None)] ++ t ++ t').
End Loop.

(** A scan of a trace that starts with [n] messages in flight: every
    fetch is made with none in flight, and there are never fewer than
    none or more than one. *)
Fixpoint one_at_a_time (n : Z) (t : list Event) : bool :=
  match t with
  | [] => true
  | e :: t' =>
      (if is_get e then n =? 0 else true) &&
      (0 <=? n + delta e) && (n + delta e <=? 1) &&
      one_at_a_time (n + delta e) t'
  end.

(** ** A library and environments to run the model on *)

(** A delivery with nothing set, and deliveries as the broker
    dead-letters them. *)
Definition emptyDelivery : Delivery.t :=
  Delivery.mk ∅ "" "" 0 0 "" "" "" "" zeroTime "" "" "" "" 0 0 false "" "" "".

(** A dead-lettered order message with the given headers, content type,
    message id and body. *)
Definition sampleWith (table : Table) (contentType messageId body : string) : Delivery.t :=
  {| Delivery.Headers := table;
     Delivery.ContentType := contentType;
     Delivery.ContentEncoding := "";
     Delivery.DeliveryMode := 2;
     Delivery.Priority := 0;
     Delivery.CorrelationId := "";
     Delivery.ReplyTo := "";
     Delivery.Expiration := "";
     Delivery.MessageId := messageId;
     Delivery.Timestamp := time_Unix 1700000000 0;
     Delivery.Type_ := "order";
     Delivery.UserId := "";
     Delivery.AppId := "shop";
     Delivery.ConsumerTag := "";
     Delivery.MessageCount := 4;
     Delivery.DeliveryTag := 7;
     Delivery.Redelivered := false;
     Delivery.Exchange := "dlx";
     Delivery.RoutingKey := "orders.created";
     Delivery.Body := body |}.

(** Headers of a message that died on the queue orders.retry. *)
Definition sampleHeaders : Table :=
  <["x-first-death-queue" := HString "orders.retry"]>
    (<["x-foo" := HString "bar"]> (<["x-death-count" := HInt 3]> ∅)).

(** The sample delivery: JSON content, message id m1. *)
Definition sampleDelivery : Delivery.t :=
  sampleWith sampleHeaders "application/json" "m1" "true".

(** The same with a body that is not JSON, and with a text body. *)
Definition malformedDelivery : Delivery.t :=
  sampleWith sampleHeaders "application/json" "m1" "{oops".

Definition textDelivery : Delivery.t :=
  sampleWith sampleHeaders "text/plain" "m1" "hello".

(** Dead-lettered from an exchange as well. *)
Definition exchangeDelivery : Delivery.t :=
  sampleWith (<["x-first-death-exchange" := HString "orders"]> sampleHeaders)
    "application/json" "m1" "true".

(** A delivery whose x-first-death-queue header holds a number. *)
Definition numericQueueDelivery : Delivery.t :=
  with_Headers (<["x-first-death-queue" := HInt 5]> (Delivery.Headers sampleDelivery))
    sampleDelivery.

(** A delivery with a header that counts in fifteen digits. *)
Definition bigNumberDelivery : Delivery.t :=
  with_Headers (<["x-delay" := HInt 1000000000000000]> (Delivery.Headers sampleDelivery))
    sampleDelivery.

(** Two digits, four digits. *)
Definition pad2 (n : Z) : string :=
  if n <? 10 then "0" +:+ pretty n else pretty n.

Definition pad4 (n : Z) : string :=
  if n <? 10 then "000" +:+ pretty n
  else if n <? 100 then "00" +:+ pretty n
  else if n <? 1000 then "0" +:+ pretty n
  else pretty n.

(** The RFC 3339 text of an instant, for years 0 to 9999: the civil date
    of the day number, the time of day, and the zone. *)
Definition rfc3339 (t : Time) : string :=
  let local := Unix t + t_offset t in
  let z := local / 86400 + 719468 in
  let sod := local mod 86400 in
  let era := z / 146097 in
  let doe := z - era * 146097 in
  let yoe := (doe - doe / 1460 + doe / 36524 - doe / 146096) / 365 in
  let doy := doe - (365 * yoe + yoe / 4 - yoe / 100) in
  let mp := (5 * doy + 2) / 153 in
  let d := doy - (153 * mp + 2) / 5 + 1 in
  let m := if mp <? 10 then mp + 3 else mp - 9 in
  let y := yoe + era * 400 + (if m <=? 2 then 1 else 0) in
  let off := Z.abs (t_offset t) in
  pad4 y +:+ "-" +:+ pad2 m +:+ "-" +:+ pad2 d +:+ "T" +:+
  pad2 (sod / 3600) +:+ ":" +:+ pad2 (sod mod 3600 / 60) +:+ ":" +:+ pad2 (sod mod 60) +:+
  (if t_offset t =? 0 then "Z"
   else (if t_offset t <? 0 then "-" else "+") +:+
        pad2 (off / 3600) +:+ ":" +:+ pad2 (off mod 3600 / 60)).

(** A library that reads the JSON literals [null], [true] and [false]
    only (every other body is a parse error), formats instants as
    RFC 3339 whatever the layout, and prints tables as the printer's
    number and nested-value formatting allow: not an integer of fifteen
    digits or more, and not a nested table that holds a nil. *)
Definition sampleLibrary : Library :=
  {| JSON := option bool;
     json_Unmarshal body :=
       if String.eqb body "null" then Some None
       else if String.eqb body "true" then Some (Some true)
       else if String.eqb body "false" then Some (Some false)
       else None;
     json_EncodeIndent _ _ v :=
       match v with
       | None => "null"
       | Some true => "true"
       | Some false => "false"
       end +:+ newline;
     time_Format t _ := rfc3339 t;
     tableprinter_formats v :=
       match v with
       | HInt n => Z.abs n <? 10 ^ 15
       | HTable t => forallb (fun kv => match snd kv with HNil => false | _ => true end)
                       (map_to_list t)
       | _ => true
       end |}.

(** A scripted environment: the messages the broker hands out, the
    operator's picks, the poll at which the interrupt has arrived, the
    writers that fail, and whether closing a file fails. *)
Record Script : Type := mkScript {
  messages : list Delivery.t;
  picks : list Z;
  interrupt_at : option nat;
  broken : Writer -> bool;
  close_fails : bool
}.

Definition scripted (s : Script) : Env :=
  {| env_write := fun _ w _ => if broken s w then Some "write failed" else None;
     env_dial := fun _ _ => None;
     env_channel := fun _ => None;
     env_done := fun h =>
       match interrupt_at s with
       | Some n => (n <=? count is_done h)%nat
       | None => false
       end;
     env_get := fun h _ _ =>
       match messages s !! count is_get h with
       | Some del => (del, true, None)
       | None => (emptyDelivery, false, None)
       end;
     env_ask := fun h _ _ =>
       match picks s !! count is_ask h with
       | Some pick => inr pick
       | None => inl "interrupt"
       end;
     env_publish := fun _ _ _ _ _ _ => None;
     env_ack := fun _ _ _ => None;
     env_create := fun _ _ => None;
     env_close := fun _ _ => if close_fails s then Some "close failed" else None |}.

(** Which writers fail: none, or every file. *)
Definition no_writer_broken : Writer -> bool := fun _ => false.

Definition files_broken (w : Writer) : bool :=
  match w with
  | Stdout => false
  | File _ => true
  end.

(** Nothing fails, the operator makes the given picks. *)
Definition calm (msgs : list Delivery.t) (answers : list Z) : Env :=
  scripted (mkScript msgs answers None no_writer_broken false).

(** Sample runs of [process] on the sample delivery, whose options are
    republish to queue, save to file, discard: the operator picks
    Discard, picks the queue, picks the file. *)
Definition discardRun : Outcome unit * list Event :=
  @process sampleLibrary (calm [] [2]) sampleDelivery [].

Definition queueRun : Outcome unit * list Event :=
  @process sampleLibrary (calm [] [0]) sampleDelivery [].

Definition saveRun : Outcome unit * list Event :=
  @process sampleLibrary (calm [] [1]) sampleDelivery [].

(** Dead-lettered from an exchange, the operator picks the exchange. *)
Definition exchangeRun : Outcome unit * list Event :=
  @process sampleLibrary (calm [] [1]) exchangeDelivery [].

(** The operator picks the file, and writing to files fails; or closing
    the file fails. *)
Definition brokenFileRun : Outcome unit * list Event :=
  @process sampleLibrary (scripted (mkScript [] [1] None files_broken false))
    sampleDelivery [].

Definition closeFailRun : Outcome unit * list Event :=
  @process sampleLibrary (scripted (mkScript [] [1] None no_writer_broken true))
    sampleDelivery [].

(** A run of the loop on a queue holding the sample delivery, which the
    operator discards. *)
Definition drainRun : Outcome unit * list Event :=
  @work sampleLibrary (calm [sampleDelivery] [2]) 5 "dlq" [].

(** ** Further readings of a trace *)

(** The errors of the calls that can make the program return an error:
    every failed call but a write to standard output, whose error the
    program drops. *)
Definition failures (t : list Event) : list string :=
  omap (fun e => match e with
                 | EWrite (File _) _ (Some msg) => Some msg
                 | EDial _ (Some msg) => Some msg
                 | EChannel (Some msg) => Some msg
                 | EGet _ _ (_, _, Some msg) => Some msg
                 | EAsk _ _ (inl msg) => Some msg
                 | EPublish _ _ _ _ _ (Some msg) => Some msg
                 | EAck _ _ (Some msg) => Some msg
                 | ECreate _ (Some msg) => Some msg
                 | EClose _ (Some msg) => Some msg
                 | _ => None
                 end) t.

(** The same write or table, sent to [f]. *)
Definition retarget (f : Writer) (e : Event) : Event :=
  match e with
  | EWrite _ text r => EWrite f text r
  | ETableProps _ rows => ETableProps f rows
  | ETableHeaders _ rows => ETableHeaders f rows
  | _ => e
  end.

(** What was sent to standard output: writes and tables. *)
Definition stdout_output (t : list Event) : list Event :=
  List.filter (fun e => match e with
                        | EWrite Stdout _ _ | ETableProps Stdout _
                        | ETableHeaders Stdout _ => true
                        | _ => false
                        end) t.

(** The fetches that brought a message. *)
Definition delivered (t : list Event) : list Delivery.t :=
  omap (fun e => match e with
                 | EGet _ _ (del, true, None) => Some del
                 | _ => None
                 end) t.

(** What [survey.AskOne] promises for a [Select]: the index it stores is
    the index of one of the options it was given.  A trace keeps the
    promise when each of its prompts does. *)
Definition in_range (e : Event) : bool :=
  match e with
  | EAsk _ options (inr answer) =>
      (0 <=? answer) && (answer <? Z.of_nat (length options))
  | _ => true
  end.

Definition survey_contract (t : list Event) : bool := forallb in_range t.

(** The operator discards a message whose headers cannot be printed. *)
Definition unprintableRun : Outcome unit * list Event :=
  @process sampleLibrary (calm [] [2]) bigNumberDelivery [].

(** The tags of the acknowledgements the broker accepted. *)
Definition acked_tags (t : list Event) : list Z :=
  omap (fun e => match e with EAck tag _ None => Some tag | _ => None end) t.

Section Rendered.
Context `{Library}.

(** The text of the payload section of a delivery, if it has one. *)
Definition payload_text (del : Delivery.t) : option string :=
  if String.eqb (Delivery.ContentType del) "application/json" then
    match json_Unmarshal (Delivery.Body del) with
    | Some payload => Some (json_EncodeIndent "" "  " payload)
    | None => None
    end
  else Some (Delivery.Body del +:+ newline).

(** Everything a delivery is rendered as on [f] when no write fails:
    the three sections in their order. *)
Definition rendering (f : Writer) (del : Delivery.t) : list Event :=
  tables f del ++
  EWrite f ("PAYLOAD" +:+ newline) None ::
  match payload_text del with
  | Some text => [EWrite f text None]
  | None => []
  end.
End Rendered.


(** The calls that connect the program to the broker and install the
    interrupt handler. *)
Definition setup_calls (t : list Event) : list Event :=
  omap (fun e => match e with
                 | EDial _ _ | EChannel _ | ENotify => Some e
                 | _ => None
                 end) t.

(** Whole runs of the program: one dead letter that the operator
    discards; no input; a broker that cannot be reached. *)
Definition cleanMain : option Z * list Event :=
  @main sampleLibrary (calm [sampleDelivery] [2]) 5 ["amqp-dead-letter"; "amqp://broker"; "dlq"].

Definition unreachable : Env :=
  let env := calm [] [] in
  mkEnv (env_write env) (fun _ _ => Some "connection refused") (env_channel env)
    (env_done env) (env_get env) (env_ask env) (env_publish env) (env_ack env)
    (env_create env) (env_close env).

Definition unreachableMain : option Z * list Event :=
  @main sampleLibrary unreachable 5 ["amqp-dead-letter"; "amqp://broker"; "dlq"].
(** ** Header lookup *)

Lemma getHeader_range_absent (entries : list (string * HVal)) (key : string) :
  key ∉ entries.*1 -> getHeader_range entries key = "".
Proof.
  induction entries as [|[k v] rest IH]; simpl; intros Hnot; [done|].
  destruct (String.eqb_spec k key) as [->|Hne].
  - exfalso. apply Hnot. left.
  - apply IH. intros Hin. apply Hnot. by right.
Qed.

Lemma getHeader_range_present (entries : list (string * HVal)) (key : string) (v : HVal) :
  NoDup entries.*1 -> (key, v) ∈ entries ->
  getHeader_range entries key = header_text (Some v).
Proof.
  induction entries as [|[k w] rest IH]; simpl; intros Hnd Hin.
  - by apply elem_of_nil in Hin.
  - apply NoDup_cons in Hnd as [Hk Hnd].
    apply elem_of_cons in Hin as [Heq|Hin].
    + injection Heq as <- <-. by rewrite String.eqb_refl.
    + destruct (String.eqb_spec k key) as [->|Hne]; [|by apply IH].
      exfalso. apply Hk. apply list_elem_of_fmap. by exists (key, v).
Qed.

(** [getHeader] is the lookup of the key, read as a string. *)
Lemma getHeader_lookup (table : Table) (key : string) :
  getHeader table key = header_text (table !! key).
Proof.
  unfold getHeader. destruct (table !! key) as [v|] eqn:Hl.
  - apply getHeader_range_present; [apply NoDup_fst_map_to_list|].
    by apply elem_of_map_to_list.
  - apply getHeader_range_absent. intros Hin.
    apply list_elem_of_fmap in Hin as [[k v] [Hk Hin]]. simpl in Hk. subst k.
    apply elem_of_map_to_list in Hin. congruence.
Qed.

(** Whatever order [range] visits the table in, the loop of [getHeader]
    returns the same string. *)
Lemma getHeader_any_order (table : Table) (entries : list (string * HVal)) (key : string) :
  entries ≡ₚ map_to_list table -> getHeader_range entries key = getHeader table key.
Proof.
  intros Hp. rewrite getHeader_lookup.
  destruct (table !! key) as [v|] eqn:Hl.
  - apply getHeader_range_present.
    + rewrite Hp. apply NoDup_fst_map_to_list.
    + rewrite Hp. by apply elem_of_map_to_list.
  - apply getHeader_range_absent. rewrite Hp. intros Hin.
    apply list_elem_of_fmap in Hin as [[k v] [Hk Hin]]. simpl in Hk. subst k.
    apply elem_of_map_to_list in Hin. congruence.
Qed.

(** ** The disposition resolver *)

Lemma nonempty_true (s : string) : nonempty s = true <-> s ≠ "".
Proof.
  unfold nonempty. destruct (String.eqb_spec s ""); simpl; split; congruence.
Qed.

Lemma resolve_offered (del : Delivery.t) :
  resolve del = (label del <$> offered del, offered del).
Proof.
  unfold resolve, offered, filename.
  destruct (nonempty (getHeader _ "x-first-death-queue"));
    destruct (nonempty (getHeader _ "x-first-death-exchange"));
    destruct (nonempty (Delivery.MessageId del)); reflexivity.
Qed.

Lemma offered_NoDup (del : Delivery.t) : NoDup (offered del).
Proof.
  unfold offered.
  destruct (nonempty (getHeader _ "x-first-death-queue"));
    destruct (nonempty (getHeader _ "x-first-death-exchange"));
    destruct (nonempty (Delivery.MessageId del)); simpl;
    repeat (apply NoDup_cons; split; [set_solver by (unfold actionRepublishQueue,
      actionRepublishExchange, actionSaveToFile, actionDiscard; lia)|]);
    apply NoDup_nil_2.
Qed.

Lemma offered_codes (del : Delivery.t) (a : Z) :
  a ∈ offered del ->
  a = actionRepublishQueue \/ a = actionRepublishExchange \/
  a = actionSaveToFile \/ a = actionDiscard.
Proof.
  unfold offered. rewrite !elem_of_app.
  repeat case_match; set_solver.
Qed.

Lemma offered_queue (del : Delivery.t) :
  actionRepublishQueue ∈ offered del <->
  getHeader (Delivery.Headers del) "x-first-death-queue" ≠ "".
Proof.
  rewrite <- nonempty_true. unfold offered.
  repeat case_match; set_solver.
Qed.

Lemma offered_exchange (del : Delivery.t) :
  actionRepublishExchange ∈ offered del <->
  getHeader (Delivery.Headers del) "x-first-death-exchange" ≠ "".
Proof.
  rewrite <- nonempty_true. unfold offered.
  repeat case_match; set_solver.
Qed.

Lemma offered_file (del : Delivery.t) :
  actionSaveToFile ∈ offered del <-> Delivery.MessageId del ≠ "".
Proof.
  rewrite <- nonempty_true. unfold offered.
  repeat case_match; set_solver.
Qed.

Lemma getHeader_names (table : Table) (key : string) :
  getHeader table key ≠ "" <-> exists s, header_names table key s.
Proof.
  rewrite getHeader_lookup. unfold header_names, header_text. split.
  - destruct (table !! key) as [[]|]; try done. intros Hs. by eexists.
  - by intros (s & -> & Hs).
Qed.

Lemma getHeader_named (table : Table) (key : string) (s : string) :
  header_names table key s -> getHeader table key = s.
Proof. intros [Hl _]. by rewrite getHeader_lookup, Hl. Qed.

Lemma offered_in_order (del : Delivery.t) :
  offered del `sublist_of`
    [actionRepublishQueue; actionRepublishExchange; actionSaveToFile; actionDiscard].
Proof.
  unfold offered.
  destruct (nonempty (getHeader _ "x-first-death-queue"));
    destruct (nonempty (getHeader _ "x-first-death-exchange"));
    destruct (nonempty (Delivery.MessageId del)); simpl;
    repeat first [apply sublist_nil | apply sublist_skip | apply sublist_cons].
Qed.

(** C1 (amended). The disposition codes [process] builds hold
    RepublishToQueue iff the header table holds a non-empty string under
    x-first-death-queue, RepublishToExchange iff it holds a non-empty
    string under x-first-death-exchange, SaveToFile iff the message id
    is non-empty, and Discard last in every case, in this order and none
    twice; the labels are index-aligned with the codes: at the position
    of each code stands its label, made of the string the header holds
    or of the message id. *)
Theorem C1_dispositions_offered (del : Delivery.t) :
  let table := Delivery.Headers del in
  let options := (resolve del).1 in
  let actions := (resolve del).2 in
  (actionRepublishQueue ∈ actions <->
     exists s, header_names table "x-first-death-queue" s) /\
  (actionRepublishExchange ∈ actions <->
     exists s, header_names table "x-first-death-exchange" s) /\
  (actionSaveToFile ∈ actions <-> Delivery.MessageId del ≠ "") /\
  last actions = Some actionDiscard /\
  actions `sublist_of`
    [actionRepublishQueue; actionRepublishExchange; actionSaveToFile; actionDiscard] /\
  NoDup actions /\
  length options = length actions /\
  (forall i : nat, actions !! i = Some actionRepublishQueue ->
     exists s, header_names table "x-first-death-queue" s /\
               options !! i = Some ("republish to queue " +:+ s)) /\
  (forall i : nat, actions !! i = Some actionRepublishExchange ->
     exists s, header_names table "x-first-death-exchange" s /\
               options !! i = Some ("republish to exchange " +:+ s)) /\
  (forall i : nat, actions !! i = Some actionSaveToFile ->
     options !! i =
       Some ("save to file dead-letter-" +:+ Delivery.MessageId del +:+ ".txt")) /\
  (forall i : nat, actions !! i = Some actionDiscard -> options !! i = Some "discard").
Proof.
  rewrite resolve_offered. simpl.
  assert (forall (i : nat) (a : Z), offered del !! i = Some a ->
            (label del <$> offered del) !! i = Some (label del a)) as Hlabel.
  { intros i a Hi. by rewrite list_lookup_fmap, Hi. }
  split; [by rewrite offered_queue, getHeader_names|].
  split; [by rewrite offered_exchange, getHeader_names|].
  split; [apply offered_file|].
  split; [unfold offered; rewrite !app_assoc; apply last_snoc|].
  split; [apply offered_in_order|].
  split; [apply offered_NoDup|].
  split; [by rewrite length_fmap|].
  split; [|split; [|split]].
  - intros i Hi. pose proof (list_elem_of_lookup_2 _ _ _ Hi) as Hin.
    apply offered_queue, getHeader_names in Hin as [s Hs].
    exists s. split; [done|]. rewrite (Hlabel _ _ Hi). unfold label. simpl.
    by rewrite (getHeader_named _ _ _ Hs).
  - intros i Hi. pose proof (list_elem_of_lookup_2 _ _ _ Hi) as Hin.
    apply offered_exchange, getHeader_names in Hin as [s Hs].
    exists s. split; [done|]. rewrite (Hlabel _ _ Hi). unfold label. simpl.
    by rewrite (getHeader_named _ _ _ Hs).
  - intros i Hi. by rewrite (Hlabel _ _ Hi).
  - intros i Hi. by rewrite (Hlabel _ _ Hi).
Qed.

(** The claim read with a header that is not empty in the plain sense
    fails: the table of this delivery holds the number 5 under
    x-first-death-queue, and RepublishToQueue is not offered. *)
Lemma C1_counterexample :
  ~ (forall del : Delivery.t,
       actionRepublishQueue ∈ (resolve del).2 <->
       header_nonempty (Delivery.Headers del) "x-first-death-queue" = true).
Proof.
  intros Hclaim.
  assert (actionRepublishQueue ∈ (resolve numericQueueDelivery).2) as Hin.
  { apply Hclaim. vm_compute. reflexivity. }
  vm_compute in Hin. set_solver.
Qed.

Example resolve_sample :
  resolve sampleDelivery =
    (["republish to queue orders.retry"; "save to file dead-letter-m1.txt"; "discard"],
     [actionRepublishQueue; actionSaveToFile; actionDiscard]).
Proof. vm_compute. reflexivity. Qed.

Lemma getHeader_delete_eq (table : Table) (key : string) :
  getHeader (delete key table) key = "".
Proof. by rewrite getHeader_lookup, lookup_delete_eq. Qed.

Lemma getHeader_delete_ne (table : Table) (key key' : string) :
  key ≠ key' -> getHeader (delete key table) key' = getHeader table key'.
Proof. intros Hne. by rewrite !getHeader_lookup, lookup_delete_ne. Qed.

Lemma getHeader_non_string (table : Table) (key : string) (v : HVal) :
  table !! key = Some v -> is_string v = false -> getHeader table key = "".
Proof.
  intros Hl Hv. rewrite getHeader_lookup, Hl. by destruct v.
Qed.

(** C9. When the x-first-death-queue or x-first-death-exchange header is
    present with a value that is not a string, [getHeader] returns the
    empty string, as it does once the header is removed; the matching
    republish disposition is not offered, and the options and actions
    are those of the delivery without that header. *)
Theorem C9_non_string_death_header (del : Delivery.t) (key : string) (v : HVal) :
  key = "x-first-death-queue" \/ key = "x-first-death-exchange" ->
  Delivery.Headers del !! key = Some v ->
  is_string v = false ->
  getHeader (Delivery.Headers del) key = "" /\
  getHeader (Delivery.Headers del) key = getHeader (delete key (Delivery.Headers del)) key /\
  (key = "x-first-death-queue" -> actionRepublishQueue ∉ (resolve del).2) /\
  (key = "x-first-death-exchange" -> actionRepublishExchange ∉ (resolve del).2) /\
  resolve del = resolve (with_Headers (delete key (Delivery.Headers del)) del).
Proof.
  intros Hkey Hl Hv.
  pose proof (getHeader_non_string _ _ _ Hl Hv) as Hg.
  split; [done|]. split; [by rewrite getHeader_delete_eq|].
  split; [|split].
  - intros ->. rewrite resolve_offered. simpl.
    rewrite offered_queue, Hg. tauto.
  - intros ->. rewrite resolve_offered. simpl.
    rewrite offered_exchange, Hg. tauto.
  - unfold resolve, filename. simpl.
    destruct Hkey as [-> | ->].
    + rewrite getHeader_delete_eq, Hg, getHeader_delete_ne by done. done.
    + rewrite getHeader_delete_eq, Hg, getHeader_delete_ne by done. done.
Qed.

Lemma C9_non_string_death_header_witness :
  Delivery.Headers numericQueueDelivery !! "x-first-death-queue" = Some (HInt 5) /\
  getHeader (Delivery.Headers numericQueueDelivery) "x-first-death-queue" = "" /\
  (resolve numericQueueDelivery).2 = [actionSaveToFile; actionDiscard].
Proof.
  split; [vm_compute; reflexivity|].
  split; [|vm_compute; reflexivity].
  apply (C9_non_string_death_header numericQueueDelivery "x-first-death-queue" (HInt 5)).
  - left. reflexivity.
  - vm_compute. reflexivity.
  - reflexivity.
Defined.

(** ** Sorting *)

Lemma string_lt_spec (a b : string) : string_lt a b = true <-> String_as_OT.lt a b.
Proof.
  unfold string_lt, String_as_OT.lt.
  destruct (String_as_OT.compare a b); split; congruence.
Qed.

Lemma string_lt_irrefl (a : string) : string_lt a a = false.
Proof.
  destruct (string_lt a a) eqn:E; [|done].
  apply string_lt_spec in E. by apply (StrictOrder_Irreflexive a) in E.
Qed.

Lemma string_lt_trans (a b c : string) :
  string_lt a b = true -> string_lt b c = true -> string_lt a c = true.
Proof.
  rewrite !string_lt_spec. apply (StrictOrder_Transitive a b c).
Qed.

Lemma string_lt_total (a b : string) :
  a ≠ b -> string_lt a b = false -> string_lt b a = true.
Proof.
  intros Hne Hab. apply string_lt_spec.
  destruct (String_as_OT.compare_spec a b) as [Heq|Hlt|Hgt]; [done| |done].
  apply string_lt_spec in Hlt. congruence.
Qed.

Section Sort.
Context {A : Type} (key : A -> string).

Let less (a b : A) : bool := string_lt (key a) (key b).

Lemma sort_insert_perm (x : A) (l : list A) : sort_insert less x l ≡ₚ x :: l.
Proof.
  induction l as [|y l IH]; simpl; [done|].
  destruct (less x y); [done|].
  rewrite IH. apply Permutation_swap.
Qed.

Lemma sort_Slice_perm_acc (l acc : list A) :
  fold_left (fun sorted e => sort_insert less e sorted) l acc ≡ₚ acc ++ l.
Proof.
  revert acc. induction l as [|x l IH]; intros acc; simpl.
  - by rewrite app_nil_r.
  - rewrite IH, sort_insert_perm. simpl. apply Permutation_middle.
Qed.

(** The sort returns a permutation of the slice. *)
Lemma sort_Slice_perm (l : list A) : sort_Slice less l ≡ₚ l.
Proof. unfold sort_Slice. by rewrite sort_Slice_perm_acc. Qed.

Lemma sort_insert_sorted (x : A) (l : list A) :
  key x ∉ key <$> l -> sorted_by key l -> sorted_by key (sort_insert less x l).
Proof.
  unfold sorted_by. intros Hx Hs. induction Hs as [|y l Hs IH Hy]; simpl.
  - repeat constructor.
  - rewrite fmap_cons, not_elem_of_cons in Hx. destruct Hx as [Hxy Hx].
    unfold less at 1. destruct (string_lt (key x) (key y)) eqn:E.
    + constructor; [by constructor|].
      constructor; [done|].
      eapply Forall_impl; [exact Hy|]. simpl. intros z Hz.
      by eapply string_lt_trans.
    + constructor; [by apply IH|].
      rewrite sort_insert_perm. constructor; [|done].
      by apply string_lt_total.
Qed.

Lemma sort_Slice_sorted_acc (l acc : list A) :
  NoDup (key <$> (acc ++ l)) -> sorted_by key acc ->
  sorted_by key (fold_left (fun sorted e => sort_insert less e sorted) l acc).
Proof.
  revert acc. induction l as [|x l IH]; intros acc Hnd Hs; simpl; [done|].
  apply IH.
  - assert (key <$> sort_insert less x acc ++ l ≡ₚ key <$> acc ++ x :: l) as ->; [|done].
    apply fmap_Permutation. rewrite sort_insert_perm. simpl.
    apply Permutation_middle.
  - apply sort_insert_sorted; [|done].
    rewrite fmap_app, fmap_cons in Hnd.
    apply NoDup_app in Hnd as (_ & Hd & _).
    intros Hin. apply (Hd _ Hin). left.
Qed.

(** When the keys differ pairwise, the sort leaves the rows in
    strictly increasing order of their key. *)
Lemma sort_Slice_sorted (l : list A) :
  NoDup (key <$> l) -> sorted_by key (sort_Slice less l).
Proof.
  intros Hnd. apply sort_Slice_sorted_acc; [done|]. constructor.
Qed.

Lemma sorted_by_NoDup (l : list A) : sorted_by key l -> NoDup (key <$> l).
Proof.
  induction 1 as [|x l Hs IH Hx]; simpl; [constructor|].
  constructor; [|done].
  intros Hin. apply list_elem_of_fmap in Hin as (y & Hy & Hin).
  rewrite Forall_forall in Hx. specialize (Hx y Hin).
  rewrite <- Hy, string_lt_irrefl in Hx. done.
Qed.

(** A slice has one ordering only: two strictly sorted lists with the
    same elements are the same list. *)
Lemma sorted_perm_unique (l1 l2 : list A) :
  sorted_by key l1 -> sorted_by key l2 -> l1 ≡ₚ l2 -> l1 = l2.
Proof.
  intros Hs1. revert l2. induction Hs1 as [|x l1 Hs1 IH Hx]; intros l2 Hs2 Hp.
  - by apply Permutation_nil_l in Hp.
  - destruct Hs2 as [|y l2 Hs2 Hy].
    + by apply Permutation_nil_r in Hp.
    + assert (x = y) as ->.
      { assert (x ∈ y :: l2) as Hxin by (rewrite <- Hp; left).
        assert (y ∈ x :: l1) as Hyin by (rewrite Hp; left).
        apply elem_of_cons in Hxin as [?|Hxin]; [done|].
        apply elem_of_cons in Hyin as [?|Hyin]; [done|].
        rewrite Forall_forall in Hx, Hy.
        specialize (Hx y Hyin). specialize (Hy x Hxin).
        pose proof (string_lt_trans _ _ _ Hx Hy) as Hxx.
        by rewrite string_lt_irrefl in Hxx. }
      f_equal. apply IH; [done|]. by apply Permutation_cons_inv in Hp.
Qed.


Lemma sorted_by_filter (P : A -> Prop) `{forall a, Decision (P a)} (l : list A) :
  sorted_by key l -> sorted_by key (filter P l).
Proof.
  induction 1 as [|x l Hs IH Hx]; [constructor|].
  rewrite filter_cons. case_decide; [|done].
  constructor; [done|].
  rewrite Forall_forall in Hx |- *. intros y Hy.
  apply list_elem_of_filter in Hy as [_ Hy]. by apply Hx.
Qed.
End Sort.

(** ** The property and header tables *)

Lemma append_nonempty_r (s1 s2 : string) : s2 ≠ "" -> s1 +:+ s2 ≠ "".
Proof. destruct s1; simpl; [done|discriminate]. Qed.

Section Tables.
Context `{Library}.

Lemma timestamp_empty (del : Delivery.t) :
  timestamp del = "" <-> IsZero (Delivery.Timestamp del) = true.
Proof.
  unfold timestamp. destruct (IsZero _); [done|].
  split; [|done]. intros Habs. exfalso. revert Habs.
  apply append_nonempty_r. discriminate.
Qed.

Lemma props_names (del : Delivery.t) :
  Property.Name <$> props del = property_names.
Proof. reflexivity. Qed.

Lemma property_names_NoDup : NoDup property_names.
Proof. compute_done. Qed.

Lemma props_by_name_sorted (del : Delivery.t) :
  sorted_by Property.Name (props_by_name del).
Proof.
  unfold sorted_by, props_by_name.
  repeat (constructor; [|repeat (constructor; [reflexivity|]); constructor]).
  constructor.
Qed.

Lemma props_by_name_perm (del : Delivery.t) : props del ≡ₚ props_by_name del.
Proof.
  apply NoDup_Permutation.
  - apply (NoDup_fmap_1 Property.Name). rewrite props_names.
    apply property_names_NoDup.
  - apply (NoDup_fmap_1 Property.Name).
    apply sorted_by_NoDup, props_by_name_sorted.
  - intros p. unfold props, props_by_name.
    rewrite !elem_of_cons, !elem_of_nil. tauto.
Qed.

Lemma setProps_by_name (del : Delivery.t) :
  setProps del =
    filter (fun p => nonempty (Property.Value p) = true) (props_by_name del).
Proof.
  unfold setProps. apply (sorted_perm_unique Property.Name).
  - apply (sort_Slice_sorted Property.Name).
    eapply sublist_NoDup; [|apply fmap_sublist, sublist_filter].
    rewrite props_names. apply property_names_NoDup.
  - apply sorted_by_filter, props_by_name_sorted.
  - rewrite (sort_Slice_perm Property.Name). by rewrite props_by_name_perm.
Qed.

(** The rows of the property table: the members of the fixed property
    set with a value, in the order of their names. *)
Lemma setProps_rows (del : Delivery.t) :
  (forall p : Property.t,
     p ∈ setProps del <-> p ∈ props del /\ Property.Value p ≠ "") /\
  sorted_by Property.Name (setProps del).
Proof.
  split.
  - intros p. rewrite setProps_by_name, list_elem_of_filter.
    rewrite nonempty_true, props_by_name_perm. tauto.
  - rewrite setProps_by_name.
    apply sorted_by_filter, props_by_name_sorted.
Qed.

Lemma props_timestamp (del : Delivery.t) (v : string) :
  Property.mk "timestamp" v ∈ props del <-> v = timestamp del.
Proof.
  unfold props. rewrite !elem_of_cons, elem_of_nil. naive_solver.
Qed.

(** The timestamp row: absent for the zero time, and otherwise the unix
    seconds followed by the RFC 3339 text in parentheses. *)
Lemma setProps_timestamp (del : Delivery.t) (v : string) :
  Property.mk "timestamp" v ∈ setProps del <->
  IsZero (Delivery.Timestamp del) = false /\
  v = pretty (Unix (Delivery.Timestamp del)) +:+ " (" +:+
      time_Format (Delivery.Timestamp del) RFC3339 +:+ ")".
Proof.
  rewrite (proj1 (setProps_rows del)), props_timestamp. simpl.
  pose proof (timestamp_empty del) as Hempty. unfold timestamp in *.
  destruct (IsZero (Delivery.Timestamp del)).
  - split; [|by intros [? _]]. intros [-> Hne]. by destruct Hne.
  - split; [by intros [-> _]|]. intros [_ ->]. split; [done|].
    intros Habs. apply Hempty in Habs. done.
Qed.
End Tables.







Example rfc3339_sample :
  rfc3339 (time_Unix 1700000000 0) = "2023-11-14T22:13:20Z" /\
  rfc3339 (time_Unix 951782400 3600) = "2000-02-29T01:00:00+01:00" /\
  rfc3339 (time_Unix 0 0) = "1970-01-01T00:00:00Z".
Proof. vm_compute. done. Qed.

Example setProps_sample :
  @setProps sampleLibrary sampleDelivery =
    [ Property.mk "app_id" "shop";
      Property.mk "content_type" "application/json";
      Property.mk "message_id" "m1";
      Property.mk "routing_key" "orders.created";
      Property.mk "timestamp" "1700000000 (2023-11-14T22:13:20Z)";
      Property.mk "type" "order" ].
Proof. vm_compute. reflexivity. Qed.

Example headers_sample :
  headers sampleDelivery =
    [ Header.mk "x-death-count" (HInt 3);
      Header.mk "x-first-death-queue" (HString "orders.retry");
      Header.mk "x-foo" (HString "bar") ].
Proof. vm_compute. reflexivity. Qed.

(** ** Running computations *)

(** How a [bind] can have ended. *)
Lemma bind_inv {A B : Type} (m : M A) (f : A -> M B) (h : list Event)
    (o : Outcome B) (t : list Event) :
  bind m f h = (o, t) ->
  (exists a t1 t2, m h = (Ok a, t1) /\ f a (h ++ t1) = (o, t2) /\ t = t1 ++ t2) \/
  (exists e, m h = (Fail e, t) /\ o = Fail e) \/
  (m h = (Panic, t) /\ o = Panic) \/
  (m h = (OutOfFuel, t) /\ o = OutOfFuel).
Proof.
  unfold bind. destruct (m h) as [[a|e| |] t1].
  - destruct (f a (h ++ t1)) as [o' t2] eqn:Hf. intros [= <- <-].
    left. by exists a, t1, t2.
  - intros [= <- <-]. right. left. by exists e.
  - intros [= <- <-]. right. right. by left.
  - intros [= <- <-]. by repeat right.
Qed.

Section Payload.
Context `{Library} (env : Env).

(** [printPayload] step by step: the heading, then what the content
    type and the body call for. *)
Lemma printPayload_run (f : Writer) (del : Delivery.t) (h : list Event) :
  let r0 := env_write env h f ("PAYLOAD" +:+ newline) in
  let heading := EWrite f ("PAYLOAD" +:+ newline) r0 in
  let done_or (r : option string) : Outcome unit :=
    match r with Some msg => Fail (errExternal msg) | None => Ok tt end in
  printPayload env f del h =
    match r0 with
    | Some msg => (Fail (errExternal msg), [heading])
    | None =>
        if String.eqb (Delivery.ContentType del) "application/json" then
          match json_Unmarshal (Delivery.Body del) with
          | Some payload =>
              let text := json_EncodeIndent "" "  " payload in
              let r := env_write env (h ++ [heading]) f text in
              (done_or r, [heading; EWrite f text r])
          | None => (Ok tt, [heading])
          end
        else
          let text := Delivery.Body del +:+ newline in
          let r := env_write env (h ++ [heading]) f text in
          (done_or r, [heading; EWrite f text r])
    end.
Proof.
  unfold printPayload, Fprintln, Encode, call, bind, check, ret, fail. simpl.
  destruct (env_write env h f _) as [msg|]; [done|]. simpl.
  destruct (String.eqb _ _).
  - destruct (json_Unmarshal _) as [payload|]; [|done]. simpl.
    rewrite app_nil_r. by destruct (env_write env _ f _).
  - simpl. rewrite app_nil_r. by destruct (env_write env _ f _).
Qed.

(** C3. Once the PAYLOAD heading is written: with content type
    "application/json" and a body that parses, the payload output is
    the one write of the value encoded with indent of two spaces; with
    content type "application/json" and a body that does not parse,
    nothing more is written and [printPayload] returns nil; with any
    other content type, the empty one included, the output is the one
    write of the body as text followed by a line break. *)
Theorem C3_payload_rendering (f : Writer) (del : Delivery.t) (h : list Event) :
  let heading := EWrite f ("PAYLOAD" +:+ newline) None in
  let done_or (r : option string) : Outcome unit :=
    match r with Some msg => Fail (errExternal msg) | None => Ok tt end in
  env_write env h f ("PAYLOAD" +:+ newline) = None ->
  (forall payload : JSON,
     Delivery.ContentType del = "application/json" ->
     json_Unmarshal (Delivery.Body del) = Some payload ->
     let text := json_EncodeIndent "" "  " payload in
     let r := env_write env (h ++ [heading]) f text in
     printPayload env f del h = (done_or r, [heading; EWrite f text r])) /\
  (Delivery.ContentType del = "application/json" ->
   json_Unmarshal (Delivery.Body del) = None ->
   printPayload env f del h = (Ok tt, [heading])) /\
  (Delivery.ContentType del ≠ "application/json" ->
   let text := Delivery.Body del +:+ newline in
   let r := env_write env (h ++ [heading]) f text in
   printPayload env f del h = (done_or r, [heading; EWrite f text r])).
Proof.
  intros heading done_or Hh.
  pose proof (printPayload_run f del h) as Hrun. simpl in Hrun.
  rewrite Hh in Hrun. fold heading in Hrun.
  split; [|split].
  - intros payload Hct Hp. rewrite Hrun, Hct, Hp. reflexivity.
  - intros Hct Hp. rewrite Hrun, Hct, Hp. reflexivity.
  - intros Hct. rewrite Hrun.
    destruct (String.eqb_spec (Delivery.ContentType del) "application/json"); done.
Qed.
End Payload.

Lemma C3_payload_rendering_witness :
  @printPayload sampleLibrary (calm [] []) Stdout malformedDelivery [] =
    (Ok tt, [EWrite Stdout ("PAYLOAD" +:+ newline) None]) /\
  @printPayload sampleLibrary (calm [] []) Stdout sampleDelivery [] =
    (Ok tt, [EWrite Stdout ("PAYLOAD" +:+ newline) None;
             EWrite Stdout ("true" +:+ newline) None]) /\
  @printPayload sampleLibrary (calm [] []) Stdout textDelivery [] =
    (Ok tt, [EWrite Stdout ("PAYLOAD" +:+ newline) None;
             EWrite Stdout ("hello" +:+ newline) None]).
Proof.
  split; [|split].
  - apply (@C3_payload_rendering sampleLibrary (calm [] []) Stdout malformedDelivery []);
      reflexivity.
  - apply (proj1 (@C3_payload_rendering sampleLibrary (calm [] []) Stdout sampleDelivery []
                    eq_refl) (Some true)); reflexivity.
  - apply (@C3_payload_rendering sampleLibrary (calm [] []) Stdout textDelivery []);
      [reflexivity|discriminate].
Defined.

(** ** The runs of [printDelivery] and [process] *)

Tactic Notation "bind_cases" hyp(Hrun) "as" ident(H1) ident(H2) :=
  let a := fresh "a" in
  let t1 := fresh "t" in
  let t2 := fresh "t" in
  let e := fresh "e" in
  apply bind_inv in Hrun
    as [(a & t1 & t2 & H1 & H2 & ->) | [(e & H1 & ->) | [[H1 ->] | [H1 ->]]]].

Lemma ret_inv {A : Type} (a : A) (h : list Event) (o : Outcome A) (t : list Event) :
  ret a h = (o, t) -> o = Ok a /\ t = [].
Proof. by intros [= <- <-]. Qed.

Lemma call_inv {A : Type} (answer : list Event -> A) (ev : A -> Event)
    (h : list Event) (o : Outcome A) (t : list Event) :
  call answer ev h = (o, t) -> o = Ok (answer h) /\ t = [ev (answer h)].
Proof. by intros [= <- <-]. Qed.

(** A call followed by [if err != nil { return err }] and more. *)
Lemma call_check_inv {B : Type} (answer : list Event -> option string)
    (ev : option string -> Event) (k : M B) (h : list Event)
    (o : Outcome B) (t : list Event) :
  bind (call answer ev) (fun err => bind (check err) (fun _ => k)) h = (o, t) ->
  (exists msg, answer h = Some msg /\ o = Fail (errExternal msg) /\ t = [ev (Some msg)]) \/
  (answer h = None /\ exists t', k (h ++ [ev None]) = (o, t') /\ t = ev None :: t').
Proof.
  unfold bind, call, check, fail, ret. simpl.
  destruct (answer h) as [msg|]; simpl.
  - intros [= <- <-]. left. by exists msg.
  - rewrite app_nil_r. destruct (k _) as [o' t'] eqn:Hk. intros [= <- <-].
    right. split; [done|]. by exists t'.
Qed.

(** A call whose error is what the function returns. *)
Lemma call_check_last (answer : list Event -> option string)
    (ev : option string -> Event) (h : list Event) :
  bind (call answer ev) check h = (done_or (answer h), [ev (answer h)]).
Proof.
  unfold bind, call, check, fail, ret, done_or. simpl. by destruct (answer h).
Qed.

Section ProcessRuns.
Context `{Library} (env : Env).

Lemma printProperties_run (f : Writer) (del : Delivery.t) (h : list Event) :
  printProperties env f del h =
    match env_write env h f ("PROPERTIES" +:+ newline) with
    | Some msg => (Fail (errExternal msg), [EWrite f ("PROPERTIES" +:+ newline) (Some msg)])
    | None =>
        (Ok tt, [EWrite f ("PROPERTIES" +:+ newline) None; ETableProps f (setProps del)])
    end.
Proof.
  unfold printProperties, Fprintln, tableprinter_Print_props, call, bind, check, ret, fail.
  simpl. by destruct (env_write env h f _).
Qed.

Lemma printHeaders_run (f : Writer) (del : Delivery.t) (h : list Event) :
  printHeaders env f del h =
    match env_write env h f ("HEADERS" +:+ newline) with
    | Some msg => (Fail (errExternal msg), [EWrite f ("HEADERS" +:+ newline) (Some msg)])
    | None =>
        if printable (headers del)
        then (Ok tt, [EWrite f ("HEADERS" +:+ newline) None; ETableHeaders f (headers del)])
        else (Panic, [EWrite f ("HEADERS" +:+ newline) None])
    end.
Proof.
  unfold printHeaders, Fprintln, tableprinter_Print_headers, call, bind, check, ret, fail.
  simpl. destruct (env_write env h f _); [done|].
  by destruct (printable (headers del)).
Qed.

(** C6. [printProperties] writes the heading and then hands the table
    printer one table, whose rows are exactly the members of the fixed
    property set (message_id, type, routing_key, timestamp,
    content_type, content_encoding, correlation_id, reply_to,
    expiration, user_id, app_id) whose value is non-empty, in strictly
    increasing lexicographic order of the property name; the timestamp
    row is absent when the timestamp is the zero value and otherwise
    holds the unix seconds followed by the RFC3339 text in parentheses.
    When the heading cannot be written, nothing is displayed and the
    error is returned. *)
Theorem C6_property_rows (f : Writer) (del : Delivery.t) (h : list Event) :
  let heading := EWrite f ("PROPERTIES" +:+ newline) in
  printProperties env f del h =
    match env_write env h f ("PROPERTIES" +:+ newline) with
    | Some msg => (Fail (errExternal msg), [heading (Some msg)])
    | None => (Ok tt, [heading None; ETableProps f (setProps del)])
    end /\
  setProps del =
    filter (fun p => nonempty (Property.Value p) = true) (props_by_name del) /\
  (forall p : Property.t,
     p ∈ setProps del <-> p ∈ props del /\ Property.Value p ≠ "") /\
  Property.Name <$> props del = property_names /\
  sorted_by Property.Name (setProps del) /\
  (forall v : string,
     Property.mk "timestamp" v ∈ setProps del <->
     IsZero (Delivery.Timestamp del) = false /\
     v = pretty (Unix (Delivery.Timestamp del)) +:+ " (" +:+
         time_Format (Delivery.Timestamp del) RFC3339 +:+ ")") /\
  (timestamp del = "" <-> IsZero (Delivery.Timestamp del) = true).
Proof.
  split; [apply printProperties_run|].
  split; [apply setProps_by_name|].
  split; [apply setProps_rows|].
  split; [apply props_names|].
  split; [apply setProps_rows|].
  split; [apply setProps_timestamp|apply timestamp_empty].
Qed.


(** Every run of [printDelivery] is one of the [rendered] runs. *)
Lemma printDelivery_rendered (f : Writer) (del : Delivery.t) (h : list Event)
    (o : Outcome unit) (t : list Event) :
  printDelivery env f del h = (o, t) -> rendered f del o t.
Proof.
  unfold printDelivery. intros Hrun.
  bind_cases Hrun as Hfst Hrun'; rewrite printProperties_run in Hfst;
    destruct (env_write env h f _); simplify_eq; [|constructor].
  bind_cases Hrun' as Hfst Hrun; rewrite printHeaders_run in Hfst;
    (destruct (env_write env _ f _); [|destruct (printable (headers del)) eqn:Hfmt]);
    simplify_eq; [|constructor|by constructor].
  bind_cases Hrun as Hfst Hrun'; rewrite printPayload_run in Hfst; simpl in Hfst.
  - apply ret_inv in Hrun' as [-> ->].
    destruct (env_write env _ f _); [done|].
    destruct (String.eqb_spec (Delivery.ContentType del) "application/json") as [Hct|Hct].
    + destruct (json_Unmarshal _) as [payload|] eqn:Hp.
      * destruct (env_write env _ f _) eqn:Hw; simplify_eq.
        apply (rendered_json f del payload None Hfmt Hct Hp).
      * simplify_eq. apply (rendered_malformed f del Hfmt Hct Hp).
    + destruct (env_write env _ f _) eqn:Hw; simplify_eq.
      apply (rendered_text f del None Hfmt Hct).
  - destruct (env_write env _ f _) as [msg|].
    { simplify_eq. apply (rendered_payload_fail f del msg Hfmt). }
    destruct (String.eqb_spec (Delivery.ContentType del) "application/json") as [Hct|Hct].
    + destruct (json_Unmarshal _) as [payload|] eqn:Hp; [|done].
      destruct (env_write env _ f _) as [msg|] eqn:Hw; simplify_eq.
      apply (rendered_json f del payload (Some msg) Hfmt Hct Hp).
    + destruct (env_write env _ f _) as [msg|] eqn:Hw; simplify_eq.
      apply (rendered_text f del (Some msg) Hfmt Hct).
  - destruct (env_write env _ f _); [done|].
    destruct (String.eqb _ _); [destruct (json_Unmarshal _)|];
      try destruct (env_write env _ f _); done.
  - destruct (env_write env _ f _); [done|].
    destruct (String.eqb _ _); [destruct (json_Unmarshal _)|];
      try destruct (env_write env _ f _); done.
Qed.

Lemma rendered_outcome (f : Writer) (del : Delivery.t) (o : Outcome unit) (t : list Event) :
  rendered f del o t ->
  o = Ok tt \/ (exists msg, o = Fail (errExternal msg)) \/ o = Panic.
Proof.
  destruct 1 as [msg|msg|?|msg ?|payload r|?|r]; try destruct r; simpl; eauto.
Qed.

Lemma Println_run (s : string) (h : list Event) :
  Println env s h = (Ok tt, [EWrite Stdout (s +:+ newline) (env_write env h Stdout (s +:+ newline))]).
Proof. reflexivity. Qed.

Lemma picked_offered (del : Delivery.t) (answer action : Z) :
  picked del answer action -> action ∈ offered del.
Proof.
  intros [_ Hl]. rewrite resolve_offered in Hl. simpl in Hl.
  by apply list_elem_of_lookup_2 in Hl.
Qed.

Lemma index_inv (actions : list Z) (answer : Z) (h : list Event)
    (o : Outcome Z) (t : list Event) :
  index actions answer h = (o, t) ->
  t = [] /\
  ((exists a, o = Ok a /\ 0 <= answer /\ actions !! Z.to_nat answer = Some a) \/
   (o = Panic /\ (answer < 0 \/ actions !! Z.to_nat answer = None))).
Proof.
  unfold index. destruct (answer <? 0) eqn:Hneg.
  - intros [= <- <-]. split; [done|]. right. split; [done|]. lia.
  - destruct (actions !! Z.to_nat answer) as [a|] eqn:Hl; intros [= <- <-].
    + split; [done|]. left. exists a. split; [done|]. split; [lia|done].
    + split; [done|]. right. auto.
Qed.

Lemma ignore_error_rendered (f : Writer) (del : Delivery.t) (h : list Event)
    (o : Outcome unit) (t : list Event) :
  ignore_error (printDelivery env f del) h = (o, t) ->
  exists shown, rendered f del shown t /\
    ((o = Ok tt /\ shown ≠ Panic) \/ (o = Panic /\ shown = Panic)).
Proof.
  unfold ignore_error.
  destruct (printDelivery env f del h) as [shown display] eqn:Hd.
  apply printDelivery_rendered in Hd.
  destruct (rendered_outcome _ _ _ _ Hd) as [->|[[msg ->]| ->]]; intros [= <- <-];
    eexists; (split; [exact Hd|]); auto.
Qed.

(** Every run of [process] is one of the [processed] runs. *)
Lemma process_processed (del : Delivery.t) (h : list Event)
    (o : Outcome unit) (t : list Event) :
  process env del h = (o, t) -> processed del o t.
Proof.
  unfold process. intros Hrun.
  bind_cases Hrun as Hfst Hrun'; rewrite Println_run in Hfst; simplify_eq.
  bind_cases Hrun' as Hshow Hrun;
    apply ignore_error_rendered in Hshow as (shown & Hd & [[Ho Hshown]|[Ho Hshown]]);
    simplify_eq.
  2: { simpl. by apply processed_display_panic. }
  simpl. apply (processed_intro del _ shown _ _ o Hd Hshown). clear Hd Hshown.
  revert Hrun.
  match goal with |- ?f ?hh = _ -> _ => generalize hh end.
  intros h' Hrun. cbv zeta in Hrun.
  rewrite (surjective_pairing (resolve del)) in Hrun.
  bind_cases Hrun as Hask Hrun'; apply call_inv in Hask as [? ?]; simplify_eq.
  simpl in *. fold (asked del) in *.
  destruct (env_ask env h' _ _) as [msg|answer] eqn:Hans.
  { injection Hrun' as <- <-. apply (acted_ask_fail del msg). }
  bind_cases Hrun' as Hidx Hrun;
    apply index_inv in Hidx as [-> [(action & ? & Hge & Hl)|[? Hout]]]; simplify_eq.
  2: { apply acted_out_of_range. intros action [? ?]. destruct Hout; [lia|congruence]. }
  assert (picked del answer action) as Hpick by done.
  clear Hge Hl. rewrite app_nil_r in Hrun. simpl.
  revert Hrun. generalize (h' ++ [asked del (inr answer)]). intros h'' Hrun.
  pose proof (offered_codes _ _ (picked_offered _ _ _ Hpick)) as Hcode.
  destruct Hcode as [->|[->|[->| ->]]]; simpl in Hrun.
  - apply call_check_inv in Hrun as [(msg & Hp & -> & ->) | (Hp & t' & Hk & ->)].
    { by apply acted_queue_publish_fail. }
    bind_cases Hk as Hpr Hack; rewrite Println_run in Hpr; simplify_eq.
    unfold Ack in Hack. rewrite call_check_last in Hack. simplify_eq.
    by apply acted_queue.
  - apply call_check_inv in Hrun as [(msg & Hp & -> & ->) | (Hp & t' & Hk & ->)].
    { by apply acted_exchange_publish_fail. }
    bind_cases Hk as Hpr Hack; rewrite Println_run in Hpr; simplify_eq.
    unfold Ack in Hack. rewrite call_check_last in Hack. simplify_eq.
    by apply acted_exchange.
  - pose proof (proj1 (offered_file del) (picked_offered _ _ _ Hpick)) as Hid.
    destruct (String.eqb_spec (Delivery.MessageId del) ""); [done|].
    apply call_check_inv in Hrun as [(msg & Hp & -> & ->) | (Hp & t' & Hk & ->)].
    { by apply acted_save_create_fail. }
    bind_cases Hk as Hwr Hcl; apply printDelivery_rendered in Hwr.
    + apply call_check_inv in Hcl as [(msg & Hc & -> & ->) | (Hc & t'' & Hack & ->)].
      { destruct a. by apply (acted_save_close_fail del answer msg). }
      unfold Ack in Hack. rewrite call_check_last in Hack. simplify_eq.
      destruct a. by apply (acted_save del answer).
    + destruct (rendered_outcome _ _ _ _ Hwr) as [?|[[msg ?]|?]]; simplify_eq.
      by apply (acted_save_write_fail del answer msg).
    + by apply (acted_save_panic del answer).
    + by destruct (rendered_outcome _ _ _ _ Hwr) as [?|[[msg ?]|?]].
  - unfold Ack in Hrun. rewrite call_check_last in Hrun. simplify_eq.
    by apply acted_discard.
Qed.
End ProcessRuns.


(** ** Acknowledgements *)

Section Acknowledge.
Context `{Library} (env : Env).

Lemma rendered_writes (f : Writer) (del : Delivery.t) (o : Outcome unit) (t : list Event) :
  rendered f del o t -> Forall (writes_to f) t.
Proof.
  destruct 1; unfold tables; simpl; repeat constructor.
Qed.

(** The display makes no call but writes; the one write that can have
    failed is the one whose error it returns. *)
Lemma rendered_quiet (f : Writer) (del : Delivery.t) (o : Outcome unit) (t : list Event) :
  rendered f del o t ->
  acks t = [] /\ publishes t = [] /\ creates t = [] /\ closes t = [] /\
  answers t = [] /\
  failed_writes t = match o with Fail (errExternal msg) => [(f, msg)] | _ => [] end.
Proof.
  destruct 1 as [msg|msg|?|msg ?|payload r|?|r]; try destruct r; done.
Qed.

Lemma rendered_stdout_no_file (del : Delivery.t) (o : Outcome unit) (t : list Event) :
  rendered Stdout del o t -> file_output t = [].
Proof. destruct 1; done. Qed.

Lemma picked_functional (del : Delivery.t) (answer a1 a2 : Z) :
  picked del answer a1 -> picked del answer a2 -> a1 = a2.
Proof. intros [_ H1] [_ H2]. congruence. Qed.

Lemma codes_distinct :
  actionRepublishQueue ≠ actionDiscard /\ actionRepublishExchange ≠ actionDiscard /\
  actionSaveToFile ≠ actionDiscard /\ actionRepublishQueue ≠ actionRepublishExchange /\
  actionRepublishQueue ≠ actionSaveToFile /\ actionRepublishExchange ≠ actionSaveToFile.
Proof. repeat split; discriminate. Qed.

(** The acknowledgements of a run from the prompt on. *)
Lemma acted_acks (del : Delivery.t) (o : Outcome unit) (t : list Event) :
  acted del o t ->
  (o = Ok tt -> acks t = [(Delivery.DeliveryTag del, false, None)]) /\
  (acks t = [] \/ exists r, acks t = [(Delivery.DeliveryTag del, false, r)]).
Proof.
  destruct 1 as [msg|answer Hno|answer msg Hp|answer r0 r Hp|answer msg Hp|answer r0 r Hp
                |answer msg Hp|answer msg written Hp Hw|answer written Hp Hw|answer msg written Hp Hw
                |answer r written Hp Hw|answer r Hp];
    try (apply rendered_quiet in Hw as (Hw & _));
    unfold acks in *; rewrite ?omap_app, ?Hw; simpl;
    try destruct r; simpl; split; try done; eauto.
Qed.

Lemma process_inv (del : Delivery.t) (h : list Event) (o : Outcome unit) (t : list Event) :
  process env del h = (o, t) ->
  exists r0 shown display rest,
    t = announced del r0 :: display ++ rest /\
    rendered Stdout del shown display /\
    ((shown = Panic /\ o = Panic /\ rest = []) \/ (shown ≠ Panic /\ acted del o rest)).
Proof.
  intros Hrun. apply process_processed in Hrun.
  destruct Hrun as [r0 display Hd|r0 shown display rest o Hd Hshown Ha].
  - exists r0, Panic, display, []. rewrite app_nil_r.
    split; [done|]. split; [done|]. by left.
  - exists r0, shown, display, rest.
    split; [done|]. split; [done|]. by right.
Qed.

(** The operator's answer in a run from the prompt on. *)
Lemma acted_answers (del : Delivery.t) (o : Outcome unit) (t : list Event) :
  acted del o t ->
  exists r, answers t = [r] /\
    match r with
    | inl msg => o = Fail (errExternal msg) /\ t = [asked del (inl msg)]
    | inr answer =>
        (exists action, picked del answer action) \/
        (o = Panic /\ t = [asked del (inr answer)])
    end.
Proof.
  destruct 1 as [msg|answer Hno|answer msg Hp|answer r0 r Hp|answer msg Hp|answer r0 r Hp
                |answer msg Hp|answer msg written Hp Hw|answer written Hp Hw|answer msg written Hp Hw
                |answer r written Hp Hw|answer r Hp];
    try (apply rendered_quiet in Hw as (_ & _ & _ & _ & Hw & _));
    unfold answers in *; rewrite ?omap_app, ?Hw; simpl;
    (eexists; split; [reflexivity|]; simpl; eauto).
Qed.

(** A run in which the operator picked Discard. *)
Lemma acted_discard_inv (del : Delivery.t) (o : Outcome unit) (t : list Event) (answer : Z) :
  acted del o t -> answers t = [inr answer] -> picked del answer actionDiscard ->
  exists r, t = [asked del (inr answer); EAck (Delivery.DeliveryTag del) false r] /\
            o = done_or r.
Proof.
  pose proof codes_distinct as (? & ? & ? & _).
  destruct 1 as [msg|answer' Hno|answer' msg Hp|answer' r0 r Hp|answer' msg Hp|answer' r0 r Hp
                |answer' msg Hp|answer' msg written Hp Hw|answer' written Hp Hw|answer' msg written Hp Hw
                |answer' r written Hp Hw|answer' r Hp];
    try (apply rendered_quiet in Hw as (_ & _ & _ & _ & Hw & _));
    unfold answers in *; rewrite ?omap_app, ?Hw; simpl;
    intros [= ->] Hd; try (by destruct (Hno _ Hd));
    try (pose proof (picked_functional _ _ _ _ Hp Hd); done).
  by exists r.
Qed.

(** C4. In every run of [process]: when it returns nil, the trace holds
    exactly one acknowledgement, of the delivery's tag, with [multiple]
    false, and it succeeded; whatever the outcome, there is at most one
    acknowledgement and it is of that tag with [multiple] false; and
    when the operator picked Discard, the acknowledgement is the call
    right after the prompt, and the run has no publish, creates no
    file, and sends nothing to a file. *)
Theorem C4_single_acknowledgement (del : Delivery.t) (h : list Event)
    (o : Outcome unit) (t : list Event) :
  process env del h = (o, t) ->
  (o = Ok tt -> acks t = [(Delivery.DeliveryTag del, false, None)]) /\
  (acks t = [] \/ exists r, acks t = [(Delivery.DeliveryTag del, false, r)]) /\
  (forall answer : Z,
     answers t = [inr answer] -> picked del answer actionDiscard ->
     publishes t = [] /\ creates t = [] /\ file_output t = [] /\
     exists pre r,
       t = pre ++ [asked del (inr answer); EAck (Delivery.DeliveryTag del) false r] /\
       o = done_or r).
Proof.
  intros Hrun.
  apply process_inv in Hrun as (r0 & shown & display & rest & -> & Hd & Ha).
  pose proof (rendered_quiet _ _ _ _ Hd) as (Hacks & Hpub & Hcr & _ & Hans & _).
  pose proof (rendered_stdout_no_file _ _ _ Hd) as Hfile.
  assert (acks (announced del r0 :: display ++ rest) = acks rest) as ->.
  { unfold acks in *. simpl. by rewrite omap_app, Hacks. }
  destruct Ha as [(_ & -> & ->)|[_ Ha]].
  { split; [done|]. split; [by left|]. intros answer Hanswer.
    unfold answers in *. simpl in Hanswer. by rewrite omap_app, Hans in Hanswer. }
  split; [apply (acted_acks del o rest Ha)|].
  split; [apply (acted_acks del o rest Ha)|].
  intros answer Hanswer Hpick.
  assert (answers rest = [inr answer]) as Hrest.
  { unfold answers in *. simpl in Hanswer. by rewrite omap_app, Hans in Hanswer. }
  destruct (acted_discard_inv del o rest answer Ha Hrest Hpick) as (r & -> & ->).
  change (announced del r0 :: display ++ ?k) with ([announced del r0] ++ display ++ k).
  unfold publishes, creates, file_output in *.
  rewrite !omap_app, Hpub, Hcr, !List.filter_app, Hfile. simpl.
  repeat split; try done.
  exists (announced del r0 :: display), r. by rewrite <- app_comm_cons.
Qed.
End Acknowledge.

Lemma C4_single_acknowledgement_witness :
  discardRun.1 = Ok tt /\
  acks discardRun.2 = [(7, false, None)] /\
  acks saveRun.2 = [(7, false, None)].
Proof.
  split; [vm_compute; reflexivity|]. split.
  - apply (@C4_single_acknowledgement sampleLibrary (calm [] [2]) sampleDelivery []
             (Ok tt) discardRun.2); [vm_compute; reflexivity|reflexivity].
  - apply (@C4_single_acknowledgement sampleLibrary (calm [] [1]) sampleDelivery []
             (Ok tt) saveRun.2); [vm_compute; reflexivity|reflexivity].
Defined.

(** ** Republishing *)

Section Republish.
Context `{Library} (env : Env).

(** The publish of a run from the prompt on, by the action picked. *)
Lemma acted_publishes (del : Delivery.t) (o : Outcome unit) (t : list Event) :
  acted del o t ->
  forall answer : Z, answers t = [inr answer] ->
  publishes t =
    if bool_decide (picked del answer actionRepublishQueue) then
      [("", getHeader (Delivery.Headers del) "x-first-death-queue", publishing del)]
    else if bool_decide (picked del answer actionRepublishExchange) then
      [(getHeader (Delivery.Headers del) "x-first-death-exchange",
        Delivery.RoutingKey del, publishing del)]
    else [].
Proof.
  pose proof codes_distinct as (? & ? & ? & ? & ? & ?).
  destruct 1 as [msg|answer' Hno|answer' msg Hp|answer' r0 r Hp|answer' msg Hp|answer' r0 r Hp
                |answer' msg Hp|answer' msg written Hp Hw|answer' written Hp Hw|answer' msg written Hp Hw
                |answer' r written Hp Hw|answer' r Hp];
    intros answer;
    try (apply rendered_quiet in Hw as (_ & Hw & _ & _ & Hw' & _));
    unfold answers, publishes in *; rewrite ?omap_app, ?Hw, ?Hw'; simpl;
    intros [= ->];
    repeat case_bool_decide; try done;
    try (by destruct (Hno _ ltac:(eassumption)));
    match goal with
    | H1 : picked _ ?a ?x, H2 : picked _ ?a ?y |- _ =>
        pose proof (picked_functional _ _ _ _ H1 H2); done
    end.
Qed.

(** C2. The message [publishing] builds has the delivery's headers,
    content type, content encoding, delivery mode, priority,
    correlation id, reply-to, expiration, message id, timestamp, type,
    user id, app id and body, each unchanged.  In a run of [process]
    where the operator picked RepublishToQueue, the one publish is of
    that message to the default exchange with the x-first-death-queue
    name as routing key; where RepublishToExchange was picked, it is of
    that message to the exchange named by x-first-death-exchange with
    the delivery's own routing key; no run publishes anything else. *)
Theorem C2_republish_copy (del : Delivery.t) (h : list Event)
    (o : Outcome unit) (t : list Event) :
  process env del h = (o, t) ->
  let queue := getHeader (Delivery.Headers del) "x-first-death-queue" in
  let exchange := getHeader (Delivery.Headers del) "x-first-death-exchange" in
  let msg := publishing del in
  (Publishing.Headers msg = Delivery.Headers del /\
   Publishing.ContentType msg = Delivery.ContentType del /\
   Publishing.ContentEncoding msg = Delivery.ContentEncoding del /\
   Publishing.DeliveryMode msg = Delivery.DeliveryMode del /\
   Publishing.Priority msg = Delivery.Priority del /\
   Publishing.CorrelationId msg = Delivery.CorrelationId del /\
   Publishing.ReplyTo msg = Delivery.ReplyTo del /\
   Publishing.Expiration msg = Delivery.Expiration del /\
   Publishing.MessageId msg = Delivery.MessageId del /\
   Publishing.Timestamp msg = Delivery.Timestamp del /\
   Publishing.Type_ msg = Delivery.Type_ del /\
   Publishing.UserId msg = Delivery.UserId del /\
   Publishing.AppId msg = Delivery.AppId del /\
   Publishing.Body msg = Delivery.Body del) /\
  (forall answer : Z,
     answers t = [inr answer] -> picked del answer actionRepublishQueue ->
     publishes t = [("", queue, msg)]) /\
  (forall answer : Z,
     answers t = [inr answer] -> picked del answer actionRepublishExchange ->
     publishes t = [(exchange, Delivery.RoutingKey del, msg)]) /\
  (publishes t = [] \/ publishes t = [("", queue, msg)] \/
   publishes t = [(exchange, Delivery.RoutingKey del, msg)]).
Proof.
  intros Hrun queue exchange msg.
  split; [by repeat split|].
  apply process_inv in Hrun as (r0 & shown & display & rest & -> & Hd & Ha).
  pose proof (rendered_quiet _ _ _ _ Hd) as (_ & Hpub & _ & _ & Hans & _).
  assert (publishes (announced del r0 :: display ++ rest) = publishes rest) as ->.
  { unfold publishes in *. simpl. by rewrite omap_app, Hpub. }
  assert (answers (announced del r0 :: display ++ rest) = answers rest) as ->.
  { unfold answers in *. simpl. by rewrite omap_app, Hans. }
  destruct Ha as [(_ & -> & ->)|[_ Ha]].
  { split; [done|]. split; [done|]. by left. }
  pose proof (acted_publishes del o rest Ha) as Hp.
  pose proof codes_distinct as (_ & _ & _ & Hqx & _).
  split; [|split].
  - intros answer Hanswer Hpick. rewrite (Hp answer Hanswer).
    by rewrite bool_decide_eq_true_2.
  - intros answer Hanswer Hpick. rewrite (Hp answer Hanswer).
    rewrite bool_decide_eq_false_2, bool_decide_eq_true_2; [done..|].
    intros Hq. by pose proof (picked_functional _ _ _ _ Hq Hpick).
  - destruct (acted_answers del o rest Ha) as ([msg'|answer] & Hanswer & Hr).
    + destruct Hr as [_ ->]. by left.
    + rewrite (Hp answer Hanswer). repeat case_bool_decide; auto.
Qed.
End Republish.

Lemma C2_republish_copy_witness :
  publishes queueRun.2 = [("", "orders.retry", publishing sampleDelivery)] /\
  publishes exchangeRun.2 = [("orders", "orders.created", publishing exchangeDelivery)].
Proof.
  split.
  - apply (proj1 (proj2 (@C2_republish_copy sampleLibrary (calm [] [0]) sampleDelivery []
                           queueRun.1 queueRun.2 eq_refl)) 0);
      [vm_compute; reflexivity|split; [lia|vm_compute; reflexivity]].
  - apply (proj1 (proj2 (proj2 (@C2_republish_copy sampleLibrary (calm [] [1])
                           exchangeDelivery [] exchangeRun.1 exchangeRun.2 eq_refl))) 1);
      [vm_compute; reflexivity|split; [lia|vm_compute; reflexivity]].
Defined.

(** ** Saving to a file *)

Section Save.
Context `{Library} (env : Env).

(** Calls that only write to [w] are no other kind of call, and no
    write of theirs is to another writer. *)
Lemma writes_quiet (w : Writer) (t : list Event) :
  Forall (writes_to w) t ->
  acks t = [] /\ creates t = [] /\ closes t = [] /\
  forall w' msg, (w', msg) ∈ failed_writes t -> w' = w.
Proof.
  induction 1 as [|e t He Ht (IHa & IHc & IHcl & IHf)]; simpl.
  - repeat split. intros w' msg Hin. by apply elem_of_nil in Hin.
  - destruct e as [w0 text [msg0|]| | | | | | | | | | | |]; simpl in He; try done; subst;
      unfold acks, creates, closes, failed_writes in *; simpl;
      repeat split; try done.
    intros w' msg Hin. apply elem_of_cons in Hin as [[= -> _]|Hin]; [done|].
    by apply (IHf _ msg).
Qed.

(** The file calls of a run from the prompt on that created a file. *)
Lemma acted_created (del : Delivery.t) (o : Outcome unit) (t : list Event) (name : string) :
  acted del o t -> (name, None) ∈ creates t ->
  name = filename del /\
  (forall w msg, (w, msg) ∈ failed_writes t ->
     w = File name /\ o = Fail (errExternal msg) /\ acks t = [] /\ closes t = []) /\
  (forall msg, (name, Some msg) ∈ closes t -> o = Fail (errExternal msg) /\ acks t = []) /\
  exists pre post,
    t = pre ++ ECreate name None :: post /\
    Forall (fun e => writes_to (File name) e \/ is_close e = true \/ is_ack e = true) post.
Proof.
  destruct 1 as [msg|answer' Hno|answer' msg Hp|answer' r0 r Hp|answer' msg Hp|answer' r0 r Hp
                |answer' msg Hp|answer' msg written Hp Hw|answer' written Hp Hw|answer' msg written Hp Hw
                |answer' r written Hp Hw|answer' r Hp];
    try (pose proof (rendered_writes _ _ _ _ Hw) as Hall;
         apply rendered_quiet in Hw as (Hwa & _ & Hwc & Hwcl & _ & Hwf));
    unfold creates, acks, closes, failed_writes in *;
    rewrite ?omap_app, ?Hwa, ?Hwc, ?Hwcl, ?Hwf; simpl;
    rewrite ?elem_of_cons, ?elem_of_nil; intros Hin;
    try (by destruct Hin as [[= ]|[]]); try done;
    destruct Hin as [[= ->]|[]].
  - (* a write to the file failed *)
    split; [done|]. split; [|split].
    + intros w msg' [[= -> ->]|Hin]%elem_of_cons; [done|]. by apply elem_of_nil in Hin.
    + intros msg' Hin. by apply elem_of_nil in Hin.
    + exists [asked del (inr answer')], written. split; [done|].
      eapply Forall_impl; [exact Hall|]. auto.
  - (* the table printer panicked on the file *)
    split; [done|]. split; [|split].
    + intros w msg' Hin. by apply elem_of_nil in Hin.
    + intros msg' Hin. by apply elem_of_nil in Hin.
    + exists [asked del (inr answer')], written. split; [done|].
      eapply Forall_impl; [exact Hall|]. auto.
  - (* closing the file failed *)
    split; [done|]. split; [|split].
    + intros w msg' Hin. by apply elem_of_nil in Hin.
    + intros msg' [[= ->]|Hin]%elem_of_cons; [done|]. by apply elem_of_nil in Hin.
    + exists [asked del (inr answer')], (written ++ [EClose (filename del) (Some msg)]).
      split; [done|]. apply Forall_app. split.
      * eapply Forall_impl; [exact Hall|]. auto.
      * repeat (apply Forall_cons_2; [simpl; auto|]). apply Forall_nil_2.
  - (* the file was written and closed *)
    split; [done|]. split; [|split].
    + intros w msg' Hin. by apply elem_of_nil in Hin.
    + intros msg' [[= ]|Hin]%elem_of_cons. by apply elem_of_nil in Hin.
    + exists [asked del (inr answer')],
        (written ++ [EClose (filename del) None; EAck (Delivery.DeliveryTag del) false r]).
      split; [done|]. apply Forall_app. split.
      * eapply Forall_impl; [exact Hall|]. auto.
      * repeat (apply Forall_cons_2; [simpl; auto|]). apply Forall_nil_2.
Qed.

(** C10. In a run of [process] that created the file: a failed write
    to that file makes [process] return that error, with no
    acknowledgement and without closing the file; a failed close makes
    it return that error, with no acknowledgement; and after the
    creation the run only writes to the file, closes it and
    acknowledges, so nothing removes the file or undoes what was
    written.  (The failed writes are those [printDelivery] sees: the
    table printer returns no error.) *)
Theorem C10_failed_save_keeps_file (del : Delivery.t) (h : list Event)
    (o : Outcome unit) (t : list Event) (name : string) :
  process env del h = (o, t) ->
  (name, None) ∈ creates t ->
  name = filename del /\
  (forall msg, (File name, msg) ∈ failed_writes t ->
     o = Fail (errExternal msg) /\ acks t = [] /\ closes t = []) /\
  (forall msg, (name, Some msg) ∈ closes t ->
     o = Fail (errExternal msg) /\ acks t = []) /\
  exists pre post,
    t = pre ++ ECreate name None :: post /\
    Forall (fun e => writes_to (File name) e \/ is_close e = true \/ is_ack e = true) post.
Proof.
  intros Hrun Hin.
  apply process_inv in Hrun as (r0 & shown & display & rest & -> & Hd & Ha).
  assert (Forall (writes_to Stdout) (announced del r0 :: display)) as Hpre.
  { apply Forall_cons_2; [done|]. by eapply rendered_writes. }
  rewrite app_comm_cons in *.
  destruct (writes_quiet _ _ Hpre) as (Hacks & Hcr & Hcl & Hfw).
  unfold creates, acks, closes, failed_writes in *.
  rewrite !omap_app in *. rewrite Hcr in Hin. rewrite Hacks, Hcl. simpl in *.
  destruct Ha as [(_ & -> & ->)|[_ Ha]]; [by apply elem_of_nil in Hin|].
  destruct (acted_created del o rest name Ha Hin) as (Hname & Hw & Hc & pre & post & -> & Hpost).
  split; [done|]. split; [|split].
  - intros msg [Hbad|Hmsg]%elem_of_app.
    + by apply Hfw in Hbad.
    + by destruct (Hw _ _ Hmsg) as (_ & ? & ? & ?).
  - done.
  - exists ((announced del r0 :: display) ++ pre), post. by rewrite <- app_assoc.
Qed.
End Save.

Lemma C10_failed_save_keeps_file_witness :
  (brokenFileRun.1 = Fail (errExternal "write failed") /\
   acks brokenFileRun.2 = [] /\ closes brokenFileRun.2 = []) /\
  (closeFailRun.1 = Fail (errExternal "close failed") /\ acks closeFailRun.2 = []).
Proof.
  split.
  - apply (@C10_failed_save_keeps_file sampleLibrary
             (scripted (mkScript [] [1] None files_broken false)) sampleDelivery []
             brokenFileRun.1 brokenFileRun.2 "dead-letter-m1.txt" eq_refl);
      vm_compute; set_solver.
  - apply (@C10_failed_save_keeps_file sampleLibrary
             (scripted (mkScript [] [1] None no_writer_broken true)) sampleDelivery []
             closeFailRun.1 closeFailRun.2 "dead-letter-m1.txt" eq_refl);
      vm_compute; set_solver.
Defined.

(** ** The triage loop *)

Section Work.
Context `{Library} (env : Env).

(** One pass of the loop, case by case. *)
Lemma work_body_run (queue : string) (h : list Event) :
  work_body env queue h =
    if env_done env h then (Ok Stopped, [EDone true])
    else
      let got := env_get env (h ++ [EDone false]) queue false in
      let fetched := [EDone false; EGet queue false got] in
      match got with
      | (_, _, Some msg) => (Fail (errExternal msg), fetched)
      | (_, false, None) =>
          (Ok Stopped, fetched ++ [drained (env_write env (h ++ fetched) Stdout
                                             ("no messages left" +:+ newline))])
      | (del, true, None) =>
          match process env del (h ++ fetched) with
          | (Ok _, t) => (Ok Running, fetched ++ t)
          | (Fail e, t) => (Fail e, fetched ++ t)
          | (Panic, t) => (Panic, fetched ++ t)
          | (OutOfFuel, t) => (OutOfFuel, fetched ++ t)
          end
      end.
Proof.
  unfold work_body, bind at 1, call at 1.
  destruct (env_done env h); [done|].
  simpl. unfold bind at 1, call at 1. simpl.
  destruct (env_get env (h ++ [EDone false]) queue false) as [[del [|]] [msg|]];
    unfold bind, check, fail, ret, Println, Fprintln, call, drained; simpl;
    rewrite <- ?app_assoc; simpl; try done.
  destruct (process env del _) as [[[]|e| |] t]; simpl; by rewrite ?app_nil_r.
Qed.

(** Every run of [work] is one of the [looped] runs. *)
Lemma work_looped (fuel : nat) (queue : string) (h : list Event)
    (o : Outcome unit) (t : list Event) :
  work env fuel queue h = (o, t) -> looped queue fuel o t.
Proof.
  revert h o t. induction fuel as [|fuel IH]; intros h o t; simpl.
  - intros [= <- <-]. constructor.
  - intros Hrun. bind_cases Hrun as Hbody Hrest; rewrite work_body_run in Hbody;
      destruct (env_done env h); simplify_eq;
      try (apply ret_inv in Hrest as [-> ->]; apply looped_cancelled);
      simpl in Hbody;
      destruct (env_get env (h ++ [EDone false]) queue false) as [[del [|]] [msg|]];
      simplify_eq; try apply looped_fetch_failed;
      try (apply ret_inv in Hrest as [-> ->]; apply looped_drained);
      destruct (process env del _) as [[[]|e'| |] tp] eqn:Hp; simplify_eq;
      apply process_processed in Hp.
    + apply (looped_again queue fuel del tp); [done|]. by eapply IH.
    + by apply looped_process_failed.
    + by apply looped_process_failed.
    + by apply looped_process_failed.
Qed.

(** A result does not depend on the fuel that was left over. *)
Lemma work_more_fuel (fuel more : nat) (queue : string) (h : list Event)
    (o : Outcome unit) (t : list Event) :
  work env fuel queue h = (o, t) -> o ≠ OutOfFuel ->
  work env (fuel + more) queue h = (o, t).
Proof.
  revert h o t. induction fuel as [|fuel IH]; intros h o t; simpl.
  - by intros [= <- <-].
  - unfold bind. destruct (work_body env queue h) as [[[|]|e| |] tb]; try done.
    destruct (work env fuel queue (h ++ tb)) as [o' t'] eqn:Hw.
    intros [= <- <-] Ho. by rewrite (IH _ _ _ Hw Ho).
Qed.
End Work.

(** ** One message in flight *)

Lemma unacked_app (t1 t2 : list Event) : unacked (t1 ++ t2) = unacked t1 + unacked t2.
Proof. unfold unacked. induction t1 as [|e t1 IH]; simpl; [done|]. rewrite IH. lia. Qed.

Lemma one_at_a_time_app (n : Z) (t1 t2 : list Event) :
  one_at_a_time n (t1 ++ t2) = one_at_a_time n t1 && one_at_a_time (n + unacked t1) t2.
Proof.
  revert n. induction t1 as [|e t1 IH]; intros n; simpl.
  - by rewrite Z.add_0_r.
  - rewrite IH, Z.add_assoc. by rewrite !andb_assoc.
Qed.

(** What the scan checks, said of every prefix of the trace. *)
Lemma one_at_a_time_prefix (n : Z) (t : list Event) :
  0 <= n <= 1 -> one_at_a_time n t = true ->
  forall pre post, t = pre ++ post ->
    0 <= n + unacked pre <= 1 /\
    (forall e post', post = e :: post' -> is_get e = true -> n + unacked pre = 0).
Proof.
  revert n. induction t as [|e t IH]; intros n Hn Hscan pre post Heq.
  - symmetry in Heq. apply app_eq_nil in Heq as [-> ->]. simpl.
    split; [lia|]. intros e post' [=].
  - simpl in Hscan. apply andb_prop in Hscan as [Hscan Hrest].
    apply andb_prop in Hscan as [Hscan Hle]. apply andb_prop in Hscan as [Hget Hge].
    destruct pre as [|e' pre]; simpl in Heq.
    + subst post. simpl. split; [lia|]. intros e0 post' [= <- <-] He.
      rewrite He in Hget. lia.
    + injection Heq as <- ->.
      destruct (IH (n + delta e) ltac:(lia) Hrest pre post eq_refl) as [Hb Hg].
      change (unacked (e :: pre)) with (delta e + unacked pre).
      split; [lia|]. intros e0 post' Hp He. specialize (Hg e0 post' Hp He). lia.
Qed.

Lemma writes_flight (w : Writer) (t : list Event) (n : Z) :
  Forall (writes_to w) t -> 0 <= n <= 1 ->
  one_at_a_time n t = true /\ unacked t = 0 /\ gets t = [].
Proof.
  intros Hall Hn. induction Hall as [|e t He Ht (IHs & IHu & IHg)]; [done|].
  destruct e; simpl in He; try done; simpl;
    change (unacked (?e :: t)) with (delta e + unacked t); simpl;
    rewrite Z.add_0_r, IHs, IHu; unfold gets in *; simpl;
    repeat split; try done; apply andb_true_intro; split; lia.
Qed.

Section Flight.
Context `{Library} (env : Env).

(** From the prompt on, with the message in flight: no fetch, and the
    message leaves the flight exactly when [process] returns nil. *)
Lemma acted_flight (del : Delivery.t) (o : Outcome unit) (t : list Event) :
  acted del o t ->
  one_at_a_time 1 t = true /\ gets t = [] /\ (o = Ok tt -> unacked t = -1).
Proof.
  destruct 1 as [msg|answer Hno|answer msg Hp|answer r0 r Hp|answer msg Hp|answer r0 r Hp
                |answer msg Hp|answer msg written Hp Hw|answer written Hp Hw|answer msg written Hp Hw
                |answer r written Hp Hw|answer r Hp];
    try (apply rendered_writes in Hw;
         destruct (writes_flight _ _ 1 Hw ltac:(lia)) as (Hs & Hu & Hg));
    unfold gets in *;
    rewrite ?one_at_a_time_app, ?unacked_app, ?omap_app, ?Hs, ?Hu, ?Hg;
    try destruct r; simpl; repeat split; try done;
    rewrite ?Z.add_0_r, ?Hs; done.
Qed.

Lemma processed_flight (del : Delivery.t) (o : Outcome unit) (t : list Event) :
  processed del o t ->
  one_at_a_time 1 t = true /\ gets t = [] /\ (o = Ok tt -> unacked t = -1).
Proof.
  destruct 1 as [r0 display Hd|r0 shown display rest o Hd Hshown Ha];
    (assert (Forall (writes_to Stdout) (announced del r0 :: display)) as Hpre;
     [apply Forall_cons_2; [done|]; by eapply rendered_writes|]);
    destruct (writes_flight _ _ 1 Hpre ltac:(lia)) as (Hs & Hu & Hg); [done|].
  destruct (acted_flight _ _ _ Ha) as (Hs' & Hg' & Hu').
  rewrite app_comm_cons. unfold gets in *.
  rewrite one_at_a_time_app, unacked_app, omap_app, Hs, Hu, Hg, Hg', Z.add_0_r, Hs'.
  split; [done|]. split; [done|]. intros Ho. by rewrite (Hu' Ho).
Qed.

Lemma writes_polls (w : Writer) (t : list Event) :
  Forall (writes_to w) t -> polls t = [].
Proof.
  induction 1 as [|e t He Ht IH]; [done|].
  destruct e; simpl in He; try done; unfold polls in *; simpl; done.
Qed.

(** [process] does not poll, and the errors it returns are those of
    the calls it made. *)
Lemma processed_outcome (del : Delivery.t) (o : Outcome unit) (t : list Event) :
  processed del o t ->
  polls t = [] /\ o ≠ OutOfFuel /\
  forall e, o = Fail e -> exists msg, e = errExternal msg.
Proof.
  destruct 1 as [r0 display Hd|r0 shown display rest o Hd Hshown Ha];
    apply rendered_writes, writes_polls in Hd.
  { change (announced del r0 :: display) with ([announced del r0] ++ display).
    unfold polls in *. by rewrite omap_app, Hd. }
  change (announced del r0 :: display ++ rest)
    with ([announced del r0] ++ display ++ rest).
  unfold polls in *. rewrite !omap_app, Hd. simpl.
  destruct Ha as [msg|answer Hno|answer msg Hp|answer r0' r Hp|answer msg Hp|answer r0' r Hp
                 |answer msg Hp|answer msg written Hp Hw|answer written Hp Hw|answer msg written Hp Hw
                 |answer r written Hp Hw|answer r Hp];
    try (apply rendered_writes, writes_polls in Hw; unfold polls in Hw);
    rewrite ?omap_app, ?Hw; simpl; (split; [done|]);
    try destruct r; simpl; (split; [done|]); intros e [= <-]; eauto.
Qed.

(** The model runs out of fuel only after as many passes as it had
    fuel: a loop that ends within [fuel] passes has its result. *)
Lemma looped_fuel (queue : string) (fuel : nat) (o : Outcome unit) (t : list Event) :
  looped queue fuel o t ->
  (length (polls t) <= fuel)%nat /\ (o = OutOfFuel -> length (polls t) = fuel).
Proof.
  induction 1 as [|fuel|fuel del ok msg|fuel del r|fuel del o t Hp Ho
                 |fuel del t o t' Hp Hl [IHle IHeq]];
    try (split; [simpl; lia|done]).
  - destruct (processed_outcome _ _ _ Hp) as (Hpolls & Hfuel & _).
    unfold polls in *. rewrite omap_app, Hpolls. simpl. split; [lia|done].
  - destruct (processed_outcome _ _ _ Hp) as (Hpolls & _).
    unfold polls in *. rewrite !omap_app, Hpolls. simpl.
    split; [lia|]. intros Ho. by rewrite (IHeq Ho).
Qed.

(** The loop fetches with nothing in flight and keeps at most one
    message in flight; its fetches are from [queue], without
    auto-acknowledgement. *)
Lemma looped_flight (queue : string) (fuel : nat) (o : Outcome unit) (t : list Event) :
  looped queue fuel o t ->
  one_at_a_time 0 t = true /\ Forall (fun g => g.1.1 = (queue, false)) (gets t).
Proof.
  induction 1 as [|fuel|fuel del ok msg|fuel del r|fuel del o t Hp Ho
                 |fuel del t o t' Hp Hl [IHs IHg]].
  - done.
  - done.
  - split; [by destruct ok|]. by repeat constructor.
  - split; [done|]. by repeat constructor.
  - destruct (processed_flight _ _ _ Hp) as (Hs & Hg & _).
    unfold gets in *. rewrite one_at_a_time_app, omap_app, Hg.
    change (0 + unacked [EDone false; EGet queue false (del, true, None)]) with 1.
    rewrite Hs. split; [done|]. by repeat constructor.
  - destruct (processed_flight _ _ _ Hp) as (Hs & Hg & Hu).
    unfold gets in *.
    rewrite !one_at_a_time_app, !omap_app, Hg.
    change (0 + unacked [EDone false; EGet queue false (del, true, None)]) with 1.
    rewrite Hs, (Hu eq_refl). change (1 + -1) with 0. rewrite IHs.
    split; [done|]. by constructor.
Qed.

(** C5. A run of [work] goes pass by pass as [looped] describes: each
    pass first polls the cancellation signal and returns nil when it is
    set; otherwise it fetches from the queue without
    auto-acknowledgement, and returns the error of a failed fetch,
    prints the notice and returns nil on an empty fetch, returns the
    error of a failed [process], and goes round again when [process]
    returns nil.  At every point of the run at most one fetched message
    is unacknowledged, and every fetch is made with none
    unacknowledged.  The model is out of fuel only after as many
    passes as it had fuel, and a run that ended keeps its result with
    more fuel. *)
Theorem C5_triage_loop (fuel : nat) (queue : string) (h : list Event)
    (o : Outcome unit) (t : list Event) :
  work env fuel queue h = (o, t) ->
  looped queue fuel o t /\
  Forall (fun g => g.1.1 = (queue, false)) (gets t) /\
  (forall pre post, t = pre ++ post -> 0 <= unacked pre <= 1) /\
  (forall pre e post, t = pre ++ e :: post -> is_get e = true -> unacked pre = 0) /\
  (o = OutOfFuel -> length (polls t) = fuel) /\
  (o ≠ OutOfFuel -> forall more, work env (fuel + more) queue h = (o, t)).
Proof.
  intros Hrun. pose proof (work_looped env _ _ _ _ _ Hrun) as Hl.
  destruct (looped_flight _ _ _ _ Hl) as [Hs Hg].
  split; [done|]. split; [done|].
  split; [|split; [|split]].
  - intros pre post Heq.
    by destruct (one_at_a_time_prefix 0 t ltac:(lia) Hs pre post Heq) as [? _].
  - intros pre e post Heq He.
    destruct (one_at_a_time_prefix 0 t ltac:(lia) Hs pre (e :: post) Heq) as [_ Hget].
    by apply (Hget e post).
  - apply (looped_fuel _ _ _ _ Hl).
  - intros Ho more. by apply work_more_fuel.
Qed.
End Flight.

Example drainRun_trace :
  drainRun.1 = Ok tt /\
  gets drainRun.2 = [("dlq", false, true, None); ("dlq", false, false, None)] /\
  acks drainRun.2 = [(7, false, None)] /\
  last drainRun.2 = Some (drained None).
Proof. vm_compute. done. Qed.

Lemma C5_triage_loop_witness :
  looped (H := sampleLibrary) "dlq" 5 drainRun.1 drainRun.2 /\
  @work sampleLibrary (calm [sampleDelivery] [2]) 9 "dlq" [] = drainRun.
Proof.
  destruct (@C5_triage_loop sampleLibrary (calm [sampleDelivery] [2]) 5 "dlq" []
              drainRun.1 drainRun.2 eq_refl) as (Hl & _ & _ & _ & _ & Hmore).
  split; [exact Hl|].
  apply (Hmore ltac:(vm_compute; discriminate) 4%nat).
Defined.

(** ** Entry and exit *)

Lemma last_cons_other {A : Type} (x y : A) (l : list A) :
  last (x :: l) = Some y -> x ≠ y -> last l = Some y.
Proof. destruct l; simpl; [congruence|done]. Qed.

Section Entry.
Context `{Library} (env : Env).

(** The loop returns nil when the last poll saw the cancellation or
    the last fetch brought neither a message nor an error; its errors
    are those of the calls it made. *)
Lemma looped_outcome (queue : string) (fuel : nat) (o : Outcome unit) (t : list Event) :
  looped queue fuel o t ->
  (forall e, o = Fail e -> exists msg, e = errExternal msg) /\
  (last (polls t) = Some true -> o = Ok tt) /\
  (forall q, last (gets t) = Some (q, false, false, None) -> o = Ok tt).
Proof.
  induction 1 as [|fuel|fuel del ok msg|fuel del r|fuel del o t Hp Ho
                 |fuel del t o t' Hp Hl (IHe & IHp & IHg)].
  - done.
  - done.
  - repeat split; try done; try (intros e [= <-]; eauto).
  - done.
  - destruct (processed_outcome _ _ _ Hp) as (Hpolls & _ & Herr).
    destruct (processed_flight _ _ _ Hp) as (_ & Hgets & _).
    unfold polls, gets in *. rewrite !omap_app, Hpolls, Hgets. simpl.
    repeat split; try done.
  - destruct (processed_outcome _ _ _ Hp) as (Hpolls & _).
    destruct (processed_flight _ _ _ Hp) as (_ & Hgets & _).
    unfold polls, gets in *. rewrite !omap_app, Hpolls, Hgets. simpl.
    split; [done|]. split.
    + intros Hlast. apply last_cons_other in Hlast; [auto|done].
    + intros q Hlast. apply last_cons_other in Hlast; [eauto|done].
Qed.

(** [run] with usable arguments: dial, open the channel, register for
    the interrupt, then loop. *)
Lemma run_usable (fuel : nat) (prog url queue : string) (h : list Event) :
  url ≠ "" -> queue ≠ "" ->
  run env fuel [prog; url; queue] h =
    match env_dial env h url with
    | Some msg => (Fail (errExternal msg), [EDial url (Some msg)])
    | None =>
        match env_channel env (h ++ [EDial url None]) with
        | Some msg => (Fail (errExternal msg), [EDial url None; EChannel (Some msg)])
        | None =>
            let setup := [EDial url None; EChannel None; ENotify] in
            ((work env fuel queue (h ++ setup)).1,
             setup ++ (work env fuel queue (h ++ setup)).2)
        end
    end.
Proof.
  intros Hurl Hqueue. unfold run.
  destruct (String.eqb_spec url ""); [done|].
  destruct (String.eqb_spec queue ""); [done|].
  unfold bind, call, check, fail, ret. simpl.
  destruct (env_dial env h url); [done|]. simpl.
  rewrite app_nil_r.
  destruct (env_channel env _); [done|]. simpl.
  rewrite app_nil_r, <- !app_assoc. simpl.
  by destruct (work env fuel queue _).
Qed.

Lemma usable_inv (args : list string) :
  usable args = true ->
  exists prog url queue, args = [prog; url; queue] /\ url ≠ "" /\ queue ≠ "".
Proof.
  unfold usable. intros Hu.
  apply andb_prop in Hu as [Hu Hq]. apply andb_prop in Hu as [Hlen Hurl].
  destruct args as [|prog [|url [|queue [|? ?]]]]; try done.
  exists prog, url, queue. simpl in *. by rewrite <- !nonempty_true.
Qed.

Lemma run_unusable (fuel : nat) (args : list string) (h : list Event) :
  usable args = false -> run env fuel args h = (Fail errUsage, []).
Proof.
  unfold usable, nonempty, run.
  destruct args as [|prog [|url [|queue [|? ?]]]]; try done. simpl.
  destruct (String.eqb url ""); [done|].
  destruct (String.eqb queue ""); [done|]. done.
Qed.

(** How [run] ends: the usage error with no call made, an error of a
    call, or the outcome of the loop after the three calls that set it
    up; it returns nil when the last poll saw the cancellation or the
    last fetch found the queue empty. *)
Lemma run_outcome (fuel : nat) (args : list string) (o : Outcome unit) (t : list Event) :
  run env fuel args [] = (o, t) ->
  (usable args = false /\ o = Fail errUsage /\ t = []) \/
  (usable args = true /\ o ≠ Fail errUsage /\
   (exists url r rest, t = EDial url r :: rest) /\
   (last (polls t) = Some true -> o = Ok tt) /\
   (forall q, last (gets t) = Some (q, false, false, None) -> o = Ok tt)).
Proof.
  intros Hrun. destruct (usable args) eqn:Hu.
  - right. split; [done|].
    apply usable_inv in Hu as (prog & url & queue & -> & Hurl & Hqueue).
    rewrite (run_usable fuel prog url queue [] Hurl Hqueue) in Hrun.
    destruct (env_dial env [] url) as [msg|].
    { injection Hrun as <- <-. repeat split; try done. eauto. }
    destruct (env_channel env _) as [msg|].
    { injection Hrun as <- <-. repeat split; try done. eauto. }
    simpl in Hrun.
    destruct (work env fuel queue _) as [o' t'] eqn:Hw.
    injection Hrun as <- <-.
    apply work_looped, looped_outcome in Hw as (He & Hp & Hg).
    split; [|split; [eauto|split]].
    + intros ->. by destruct (He _ eq_refl).
    + exact Hp.
    + exact Hg.
  - left. rewrite (run_unusable fuel args [] Hu) in Hrun. by injection Hrun as <- <-.
Qed.

End Entry.

Example main_usage :
  @main sampleLibrary (calm [] []) 5 ["amqp-dead-letter"; "DL.queue.name"] =
    (Some 1, [EWrite Stdout ("usage: amqp-dead-letter <url> <queue>" +:+ newline) None]) /\
  @main sampleLibrary (calm [] []) 5 ["amqp-dead-letter"; ""; "DL.queue.name"] =
    (Some 1, [EWrite Stdout ("usage: amqp-dead-letter <url> <queue>" +:+ newline) None]).
Proof. vm_compute. done. Qed.

Example main_empty_queue :
  @main sampleLibrary (calm [] []) 5 ["amqp-dead-letter"; "amqp://host"; "DL.queue.name"] =
    (Some 0,
     [ EDial "amqp://host" None; EChannel None; ENotify; EDone false;
       EGet "DL.queue.name" false (emptyDelivery, false, None); drained None ]).
Proof. vm_compute. done. Qed.

(** ** More on header lookup *)

(** X1. [getHeader] reads the table like a lookup: a key just stored
    with a string gives that string back, storing under another key
    changes nothing, a missing key and the empty table give the empty
    string, and a non-empty result is exactly a string stored under the
    key. *)
Theorem X1_getHeader_store_and_lookup (table : Table) (key : string) :
  (forall s, getHeader (<[key := HString s]> table) key = s) /\
  (forall key' v, key' ≠ key -> getHeader (<[key' := v]> table) key = getHeader table key) /\
  (table !! key = None -> getHeader table key = "") /\
  getHeader ∅ key = "" /\
  (forall s, s ≠ "" -> (getHeader table key = s <-> table !! key = Some (HString s))).
Proof.
  split; [|split; [|split; [|split]]].
  - intros s. by rewrite getHeader_lookup, lookup_insert_eq.
  - intros key' v Hne. by rewrite !getHeader_lookup, lookup_insert_ne.
  - intros Hl. by rewrite getHeader_lookup, Hl.
  - by rewrite getHeader_lookup, lookup_empty.
  - intros s Hs. rewrite getHeader_lookup. split.
    + destruct (table !! key) as [[]|]; simpl; congruence.
    + by intros ->.
Qed.

(** X2. Whatever order the [range] of [getHeader] visits the entries of
    the table in, the result is the same. *)
Theorem X2_getHeader_order_independent (table : Table)
    (entries : list (string * HVal)) (key : string) :
  entries ≡ₚ map_to_list table ->
  getHeader_range entries key = getHeader table key.
Proof. apply getHeader_any_order. Qed.

Lemma X2_getHeader_order_independent_witness :
  getHeader_range (reverse (map_to_list sampleHeaders)) "x-first-death-queue" =
  "orders.retry".
Proof.
  rewrite (X2_getHeader_order_independent sampleHeaders
             (reverse (map_to_list sampleHeaders)) "x-first-death-queue"
             (reverse_Permutation _)).
  vm_compute. reflexivity.
Defined.

(** ** File names and option labels *)

Lemma append_length (s1 s2 : string) :
  String.length (s1 +:+ s2) = (String.length s1 + String.length s2)%nat.
Proof. induction s1 as [|c s1 IH]; simpl; [done|]. by rewrite IH. Qed.

Lemma append_inj_suffix (s1 s2 suffix : string) :
  s1 +:+ suffix = s2 +:+ suffix -> s1 = s2.
Proof.
  revert s2. induction s1 as [|c s1 IH]; intros [|d s2] Heq; simpl in Heq.
  - done.
  - apply (f_equal String.length) in Heq. simpl in Heq.
    rewrite !append_length in Heq. simpl in Heq. lia.
  - apply (f_equal String.length) in Heq. simpl in Heq.
    rewrite !append_length in Heq. simpl in Heq. lia.
  - injection Heq as -> Heq. f_equal. by apply IH.
Qed.

(** X3. [filename] gives different messages different files: two
    deliveries get the same file name exactly when they have the same
    message id, and the name is never empty. *)
Theorem X3_filename_injective (del1 del2 : Delivery.t) :
  (filename del1 = filename del2 <-> Delivery.MessageId del1 = Delivery.MessageId del2) /\
  filename del1 ≠ "".
Proof.
  unfold filename. split; [split|done].
  - intros Heq. simpl in Heq. injection Heq as Heq.
    by apply (append_inj_suffix _ _ ".txt").
  - by intros ->.
Qed.

(** X4. The operator always has something to pick and never sees the
    same option twice: the options are between one and four, pairwise
    different, the last one is "discard", and the first one is always a
    valid pick. *)
Theorem X4_options_distinct (del : Delivery.t) :
  let options := (resolve del).1 in
  NoDup options /\
  (1 <= length options <= 4)%nat /\
  last options = Some "discard" /\
  exists action, picked del 0 action.
Proof.
  unfold picked. rewrite resolve_offered. unfold offered, label. simpl.
  destruct (nonempty (getHeader _ "x-first-death-queue"));
    destruct (nonempty (getHeader _ "x-first-death-exchange"));
    destruct (nonempty (Delivery.MessageId del)); simpl;
    (split; [|split; [lia|split; [done|eexists; split; [lia|reflexivity]]]]);
    repeat (apply NoDup_cons; split;
            [rewrite ?not_elem_of_cons; repeat split; try discriminate;
             apply not_elem_of_nil|]);
    apply NoDup_nil_2.
Qed.

(** ** What [printDelivery] writes *)

Section Rendering.
Context `{Library} (env : Env).

Lemma rendered_ok (f : Writer) (del : Delivery.t) (t : list Event) :
  rendered f del (Ok tt) t -> t = rendering f del.
Proof.
  unfold rendering, payload_text. intros Hr.
  inversion Hr as [| | | |payload r Hfmt Hct Hp Ho|Hfmt Hct Hp|r Hfmt Hct Ho]; subst.
  - destruct r; [done|]. by rewrite Hct, Hp.
  - by rewrite Hct, Hp.
  - destruct r; [done|].
    by destruct (String.eqb_spec (Delivery.ContentType del) "application/json").
Qed.

Lemma rendered_fail (f : Writer) (del : Delivery.t) (e : error) (t : list Event) :
  rendered f del (Fail e) t ->
  exists pre text msg,
    t = pre ++ [EWrite f text (Some msg)] /\ e = errExternal msg /\
    failed_writes pre = [] /\ pre ++ [EWrite f text None] `prefix_of` rendering f del.
Proof.
  unfold rendering, payload_text, tables. intros Hr.
  inversion Hr as [msg|msg| |msg Hfmt|payload r Hfmt Hct Hp Ho|Hfmt Hct Hp|r Hfmt Hct Ho];
    subst.
  - exists [], ("PROPERTIES" +:+ newline), msg. repeat split; try done.
    by eexists.
  - eexists [_; _], ("HEADERS" +:+ newline), msg. repeat split; try done.
    by eexists.
  - eexists [_; _; _; _], ("PAYLOAD" +:+ newline), msg. repeat split; try done.
    by eexists.
  - destruct r as [msg|]; [|done]. injection Ho as <-.
    eexists [_; _; _; _; _], _, msg. repeat split; try done.
    rewrite Hct, Hp. simpl. by exists [].
  - destruct r as [msg|]; [|done]. injection Ho as <-.
    eexists [_; _; _; _; _], _, msg. repeat split; try done.
    destruct (String.eqb_spec (Delivery.ContentType del) "application/json"); [done|].
    simpl. by exists [].
Qed.

Lemma rendered_panic (f : Writer) (del : Delivery.t) (t : list Event) :
  rendered f del Panic t ->
  printable (headers del) = false /\
  t = [ EWrite f ("PROPERTIES" +:+ newline) None; ETableProps f (setProps del);
        EWrite f ("HEADERS" +:+ newline) None ].
Proof.
  intros Hr.
  inversion Hr as [| |Hfmt| |payload r Hfmt Hct Hp Ho|Hfmt Hct Hp|r Hfmt Hct Ho]; subst;
    try done; by destruct r.
Qed.

Lemma rendered_printable (f : Writer) (del : Delivery.t) (o : Outcome unit) (t : list Event) :
  rendered f del o t -> printable (headers del) = true -> o ≠ Panic.
Proof. intros Hr Hfmt ->. apply rendered_panic in Hr as [Hno _]. congruence. Qed.

(** X5. [printDelivery] writes to its writer only, the sections in
    their order and nothing else.  When it returns nil, none of the
    writes it makes itself failed (the headings and the payload; the
    table printer reports nothing about its own writes) and the trace is
    the whole rendering: PROPERTIES and its rows, HEADERS and its rows,
    PAYLOAD and the payload text if there is one.  When it returns an
    error, that error is the one of its last write, no earlier write
    failed, and what it attempted is a beginning of the rendering: it
    writes nothing after a failed write.  It panics when the table
    printer cannot format a header value, after the HEADERS heading and
    before any header row or the payload, and only then. *)
Theorem X5_printDelivery_sections (f : Writer) (del : Delivery.t) (h : list Event)
    (o : Outcome unit) (t : list Event) :
  printDelivery env f del h = (o, t) ->
  Forall (writes_to f) t /\
  (o = Ok tt \/ (exists msg, o = Fail (errExternal msg)) \/ o = Panic) /\
  (o = Ok tt ->
   t = rendering f del /\ failed_writes t = [] /\ printable (headers del) = true) /\
  (forall e, o = Fail e ->
     exists pre text msg,
       t = pre ++ [EWrite f text (Some msg)] /\ e = errExternal msg /\
       failed_writes pre = [] /\ pre ++ [EWrite f text None] `prefix_of` rendering f del) /\
  (o = Panic ->
   printable (headers del) = false /\
   t = [ EWrite f ("PROPERTIES" +:+ newline) None; ETableProps f (setProps del);
         EWrite f ("HEADERS" +:+ newline) None ]) /\
  (printable (headers del) = true -> o ≠ Panic).
Proof.
  intros Hrun. apply printDelivery_rendered in Hrun.
  split; [by eapply rendered_writes|].
  split; [by eapply rendered_outcome|].
  split; [|split; [|split]].
  - intros ->. split; [by apply rendered_ok|].
    split; [by destruct (rendered_quiet _ _ _ _ Hrun) as (_ & _ & _ & _ & _ & ?)|].
    destruct (printable (headers del)) eqn:Hfmt; [done|].
    inversion Hrun as [| | | |payload r Hfmt' Hct Hp Ho|Hfmt' Hct Hp|r Hfmt' Hct Ho];
      congruence.
  - intros e ->. by apply rendered_fail.
  - intros ->. by apply rendered_panic.
  - by apply (rendered_printable f del o t).
Qed.
End Rendering.

Lemma X5_printDelivery_sections_witness :
  (@printDelivery sampleLibrary (calm [] []) Stdout sampleDelivery []).2 =
    @rendering sampleLibrary Stdout sampleDelivery /\
  length (@rendering sampleLibrary Stdout sampleDelivery) = 6%nat.
Proof.
  split; [|reflexivity].
  apply (@X5_printDelivery_sections sampleLibrary (calm [] []) Stdout sampleDelivery []
           (Ok tt) _ eq_refl); reflexivity.
Defined.

(** ** Errors of [process] *)

Tactic Notation "acted_cases" hyp(Ha) "as" ident(Hp) ident(Hw) :=
  destruct Ha as [?msg|?answer Hp|?answer ?msg Hp|?answer ?r0 ?r Hp|?answer ?msg Hp
                 |?answer ?r0 ?r Hp|?answer ?msg Hp|?answer ?msg ?written Hp Hw
                 |?answer ?written Hp Hw
                 |?answer ?msg ?written Hp Hw|?answer ?r ?written Hp Hw|?answer ?r Hp].

Lemma stdout_failures (t : list Event) :
  Forall (writes_to Stdout) t -> failures t = [].
Proof.
  induction 1 as [|e t He Ht IH]; [done|].
  destruct e as [w text r| | | | | | | | | | | |]; simpl in He; try done; subst.
  unfold failures in *. simpl. by destruct r.
Qed.

Lemma rendered_file_failures (name : string) `{Library} (del : Delivery.t)
    (o : Outcome unit) (t : list Event) :
  rendered (File name) del o t ->
  failures t = match o with Fail (errExternal msg) => [msg] | _ => [] end.
Proof.
  destruct 1 as [msg|msg|?|msg ?|payload r|?|r]; try destruct r; done.
Qed.

Lemma rendered_file_fail_last (name : string) `{Library} (del : Delivery.t)
    (e : error) (t : list Event) :
  rendered (File name) del (Fail e) t ->
  exists pre x msg,
    t = pre ++ [x] /\ e = errExternal msg /\ failures pre = [] /\ failures [x] = [msg].
Proof.
  unfold tables. intros Hr.
  inversion Hr as [msg|msg| |msg Hfmt|payload r Hfmt Hct Hp Ho|Hfmt Hct Hp|r Hfmt Hct Ho];
    subst.
  - by eexists [], _, msg.
  - by eexists [_; _], _, msg.
  - by eexists [_; _; _; _], _, msg.
  - destruct r as [msg|]; [|done]. injection Ho as <-.
    by eexists [_; _; _; _; _], _, msg.
  - destruct r as [msg|]; [|done]. injection Ho as <-.
    by eexists [_; _; _; _; _], _, msg.
Qed.

Section ProcessErrors.
Context `{Library} (env : Env).

(** From the prompt on: an error is the error of the last call, and no
    call before it failed. *)
Lemma acted_fail_fast (del : Delivery.t) (o : Outcome unit) (t : list Event) :
  acted del o t ->
  match o with
  | Ok _ | Panic => failures t = []
  | Fail e =>
      exists pre x msg,
        t = pre ++ [x] /\ e = errExternal msg /\
        failures pre = [] /\ failures [x] = [msg]
  | OutOfFuel => False
  end.
Proof.
  intros Ha. acted_cases Ha as Hp Hw.
  - by exists [], (asked del (inl msg)), msg.
  - done.
  - by eexists [_], _, msg.
  - destruct r as [msg|]; [|done]. by eexists [_; _; _], _, msg.
  - by eexists [_], _, msg.
  - destruct r as [msg|]; [|done]. by eexists [_; _; _], _, msg.
  - by eexists [_], _, msg.
  - apply rendered_file_fail_last in Hw as (pre & x & msg' & -> & [= <-] & Hpre & Hx).
    exists ([asked del (inr answer); ECreate (filename del) None] ++ pre), x, msg.
    rewrite <- app_assoc. repeat split; try done;
      unfold failures in *; by rewrite omap_app, Hpre.
  - pose proof (rendered_file_failures _ _ _ _ Hw) as Hf.
    unfold failures in *. by rewrite omap_app, Hf.
  - pose proof (rendered_file_failures _ _ _ _ Hw) as Hf.
    exists ([asked del (inr answer); ECreate (filename del) None] ++ written),
      (EClose (filename del) (Some msg)), msg.
    split; [by rewrite <- app_assoc|].
    unfold failures in *. rewrite omap_app, Hf. done.
  - pose proof (rendered_file_failures _ _ _ _ Hw) as Hf.
    destruct r as [msg|].
    + exists ([asked del (inr answer); ECreate (filename del) None] ++ written ++
              [EClose (filename del) None]),
        (EAck (Delivery.DeliveryTag del) false (Some msg)), msg.
      split; [by rewrite <- !app_assoc|].
      unfold failures in *. rewrite !omap_app, Hf. done.
    + unfold failures in *. rewrite !omap_app, Hf. done.
  - destruct r as [msg|]; [|done]. by eexists [_], _, msg.
Qed.
End ProcessErrors.

Lemma done_or_not_panic (r : option string) : done_or r ≠ Panic.
Proof. by destruct r. Qed.

(** From the prompt on, a panic is an answer outside the options or
    the table printer on the file. *)
Lemma acted_panic `{Library} (del : Delivery.t) (t : list Event) :
  acted del Panic t ->
  (exists answer, t = [asked del (inr answer)] /\ forall action, ~ picked del answer action) \/
  (printable (headers del) = false /\ acks t = [] /\ publishes t = []).
Proof.
  intros Ha. remember Panic as o eqn:Ho.
  acted_cases Ha as Hp Hw; try done; try (by destruct (done_or_not_panic r)).
  - left. by exists answer.
  - right. apply rendered_panic in Hw as [Hfmt ->].
    split; [done|]. split; reflexivity.
Qed.

(** A run from the prompt on starts with the prompt, and prompts once. *)
Lemma acted_starts `{Library} (del : Delivery.t) (o : Outcome unit) (t : list Event) :
  acted del o t -> exists r, head t = Some (asked del r) /\ answers t = [r].
Proof.
  intros Ha. acted_cases Ha as Hp Hw;
    try (apply rendered_quiet in Hw as (_ & _ & _ & _ & Hw & _));
    unfold answers in *; rewrite ?omap_app, ?Hw; simpl;
    (eexists; split; reflexivity).
Qed.

(** Headers the printer cannot format: the rendering fails before the
    header table or panics at it. *)
Lemma rendered_unprintable `{Library} (f : Writer) (del : Delivery.t)
    (o : Outcome unit) (t : list Event) :
  rendered f del o t -> printable (headers del) = false ->
  o = Panic \/ exists msg, o = Fail (errExternal msg) /\ failed_writes t = [(f, msg)].
Proof.
  destruct 1 as [msg|msg|?|msg ?|payload r ?|?|r ?]; intros Hfmt; try congruence.
  - right. by exists msg.
  - right. by exists msg.
  - by left.
Qed.

Lemma stdout_answers (t : list Event) :
  Forall (writes_to Stdout) t -> answers t = [].
Proof.
  induction 1 as [|e t He Ht IH]; [done|].
  destruct e; simpl in He; try done; subst; unfold answers in *; by simpl.
Qed.

Section ProcessFacts.
Context `{Library} (env : Env).

Lemma picked_in_range (del : Delivery.t) (answer : Z) :
  (exists action, picked del answer action) <->
  0 <= answer < Z.of_nat (length (resolve del).1).
Proof.
  unfold picked. rewrite resolve_offered. simpl. rewrite length_fmap. split.
  - intros (action & Hge & Hl). apply lookup_lt_Some in Hl. lia.
  - intros [Hge Hlt].
    destruct (lookup_lt_is_Some_2 (offered del) (Z.to_nat answer) ltac:(lia)) as [a Ha].
    by exists a.
Qed.

(** X6. [process] fails fast and passes errors on unchanged: when it
    returns an error, that error is the one of the last call it made, and
    no call before it had failed (a failed write to standard output
    apart, which it drops); when it returns nil or panics, no such call
    failed.  It never returns the usage error or the error of saving
    without a message id: the resolver does not offer the file for such
    a message. *)
Theorem X6_process_fail_fast (del : Delivery.t) (h : list Event)
    (o : Outcome unit) (t : list Event) :
  process env del h = (o, t) ->
  o ≠ OutOfFuel /\ o ≠ Fail errUsage /\ o ≠ Fail errNoMessageId /\
  (o = Ok tt \/ o = Panic -> failures t = []) /\
  (failures t = [] -> o = Ok tt \/ o = Panic) /\
  (forall e, o = Fail e ->
     exists pre x msg,
       t = pre ++ [x] /\ e = errExternal msg /\ failures pre = [] /\ failures [x] = [msg]).
Proof.
  intros Hrun.
  apply process_inv in Hrun as (r0 & shown & display & rest & -> & Hd & Ha).
  assert (failures (announced del r0 :: display) = []) as Hpre.
  { apply stdout_failures. apply Forall_cons_2; [done|]. by eapply rendered_writes. }
  destruct Ha as [(_ & -> & ->)|[_ Ha]].
  { rewrite app_nil_r, Hpre. repeat split; try done; auto. }
  pose proof (acted_fail_fast del o rest Ha) as Hff.
  rewrite app_comm_cons.
  assert (failures ((announced del r0 :: display) ++ rest) = failures rest) as ->.
  { unfold failures in *. by rewrite omap_app, Hpre. }
  destruct o as [[]|e| |]; try done.
  - rewrite Hff. repeat split; try done; auto.
  - destruct Hff as (pre & x & msg & -> & -> & Hp & Hx).
    assert (failures (pre ++ [x]) = [msg]) as Hall.
    { unfold failures in *. by rewrite omap_app, Hp, Hx. }
    rewrite Hall. repeat split; try done.
    + by intros [?|?].
    + intros e [= <-]. exists ((announced del r0 :: display) ++ pre), x, msg.
      rewrite <- app_assoc. repeat split; try done;
        unfold failures in *; by rewrite omap_app, Hpre, Hp.
  - rewrite Hff. repeat split; try done; auto.
Qed.

(** X7. Under the promise of the prompt (the index it returns is the
    index of an option), [process] never panics on [actions[answer]]:
    it panics only when the table printer cannot format a header value,
    and then it has neither published nor acknowledged.  It prompts at
    most once, and exactly once, with the options of the resolver, when
    the headers can be printed.  A message whose headers cannot be
    printed is never triaged while standard output works: [process]
    panics in the display, before the prompt. *)
Theorem X7_panic_only_from_printer (del : Delivery.t) (h : list Event)
    (o : Outcome unit) (t : list Event) :
  process env del h = (o, t) ->
  survey_contract t = true ->
  (o = Panic -> printable (headers del) = false /\ acks t = [] /\ publishes t = []) /\
  (printable (headers del) = true -> exists r, answers t = [r] /\ asked del r ∈ t) /\
  (length (answers t) <= 1)%nat /\
  (printable (headers del) = false -> failed_writes t = [] ->
   o = Panic /\ answers t = []).
Proof.
  intros Hrun Hcontract.
  apply process_inv in Hrun as (r0 & shown & display & rest & -> & Hd & Ha).
  pose proof (rendered_quiet _ _ _ _ Hd) as (Hacks & Hpub & _ & _ & Hans & Hfw).
  assert (answers (announced del r0 :: display ++ rest) = answers rest) as ->.
  { unfold answers in *. simpl. by rewrite omap_app, Hans. }
  assert (acks (announced del r0 :: display ++ rest) = acks rest) as ->.
  { unfold acks in *. simpl. by rewrite omap_app, Hacks. }
  assert (publishes (announced del r0 :: display ++ rest) = publishes rest) as ->.
  { unfold publishes in *. simpl. by rewrite omap_app, Hpub. }
  destruct Ha as [(-> & -> & ->)|[Hshown Ha]].
  { apply rendered_panic in Hd as [Hfmt _].
    split; [done|]. split; [congruence|]. split; [simpl; lia|done]. }
  destruct (acted_starts del o rest Ha) as (r & Hhead & Hr).
  assert (asked del r ∈ announced del r0 :: display ++ rest) as Hasked.
  { destruct rest as [|e rest']; simplify_eq/=. set_solver. }
  rewrite Hr.
  split; [|split; [|split; [done|]]].
  - intros ->. apply acted_panic in Ha as [(answer & -> & Hno)|Hfile]; [|done].
    injection Hhead as <-.
    exfalso. unfold survey_contract in Hcontract.
    rewrite forallb_forall in Hcontract.
    assert (in_range (asked del (inr answer)) = true) as Hin.
    { by apply Hcontract, list_elem_of_In. }
    simpl in Hin. apply andb_prop in Hin as [Hge Hlt].
    destruct (proj2 (picked_in_range del answer) ltac:(lia)) as [action Hpick].
    by apply (Hno action).
  - intros _. by exists r.
  - intros Hfmt Hnone.
    destruct (rendered_unprintable _ _ _ _ Hd Hfmt) as [->|(msg & -> & Hbad)]; [done|].
    exfalso. unfold failed_writes in *. simpl in Hnone.
    rewrite omap_app, Hbad in Hnone. by destruct r0.
Qed.
End ProcessFacts.

Lemma X6_process_fail_fast_witness :
  failures discardRun.2 = [] /\
  exists pre, closeFailRun.2 = pre ++ [EClose "dead-letter-m1.txt" (Some "close failed")].
Proof.
  split.
  - apply (@X6_process_fail_fast sampleLibrary (calm [] [2]) sampleDelivery []
             discardRun.1 discardRun.2 eq_refl).
    left. vm_compute. reflexivity.
  - destruct (@X6_process_fail_fast sampleLibrary
                (scripted (mkScript [] [1] None no_writer_broken true)) sampleDelivery []
                closeFailRun.1 closeFailRun.2 eq_refl) as (_ & _ & _ & _ & _ & Hlast).
    destruct (Hlast (errExternal "close failed") ltac:(vm_compute; reflexivity))
      as (pre & x & msg & Heq & _).
    exists pre. rewrite Heq. f_equal.
    assert (last closeFailRun.2 = Some x) as Hx by (rewrite Heq; apply last_snoc).
    vm_compute in Hx. by injection Hx as <-.
Defined.

Lemma X7_panic_only_from_printer_witness :
  unprintableRun.1 = Panic /\ answers unprintableRun.2 = [] /\
  exists r, answers discardRun.2 = [r].
Proof.
  split.
  - apply (@X7_panic_only_from_printer sampleLibrary (calm [] [2]) bigNumberDelivery []
             unprintableRun.1 unprintableRun.2 eq_refl);
      vm_compute; reflexivity.
  - split.
    + apply (@X7_panic_only_from_printer sampleLibrary (calm [] [2]) bigNumberDelivery []
               unprintableRun.1 unprintableRun.2 eq_refl);
        vm_compute; reflexivity.
    + destruct (proj1 (proj2 (@X7_panic_only_from_printer sampleLibrary (calm [] [2])
                  sampleDelivery [] discardRun.1 discardRun.2 eq_refl
                  ltac:(vm_compute; reflexivity))) ltac:(vm_compute; reflexivity))
        as (r & Hr & _).
      by exists r.
Defined.

Section Dispositions.
Context `{Library} (env : Env).

(** From the prompt on: the acknowledgement, if any, is the last call. *)
Lemma acted_ack_last (del : Delivery.t) (o : Outcome unit) (t : list Event) :
  acted del o t -> acks t ≠ [] ->
  exists pre r, t = pre ++ [EAck (Delivery.DeliveryTag del) false r] /\
                failures pre = [] /\ acks pre = [] /\ o = done_or r.
Proof.
  intros Ha. acted_cases Ha as Hp Hw;
    try (pose proof (rendered_file_failures _ _ _ _ Hw) as Hf;
         apply rendered_quiet in Hw as (Hwa & _));
    unfold acks, failures in *; rewrite ?omap_app, ?Hwa; simpl; intros Hne; try done.
  - by eexists [_; _; _], r.
  - by eexists [_; _; _], r.
  - exists ([asked del (inr answer); ECreate (filename del) None] ++ written ++
            [EClose (filename del) None]), r.
    split; [by rewrite <- !app_assoc|].
    rewrite !omap_app, Hf, Hwa. done.
  - by eexists [_], r.
Qed.

(** From the prompt on: a run has one disposition. *)
Lemma acted_one_disposition (del : Delivery.t) (o : Outcome unit) (t : list Event) :
  acted del o t ->
  (length (publishes t) <= 1)%nat /\
  (creates t = [] \/ exists r, creates t = [(filename del, r)]) /\
  (publishes t = [] \/ creates t = []) /\
  (creates t = [] -> file_output t = [] /\ closes t = []) /\
  Forall (writes_to (File (filename del))) (file_output t).
Proof.
  assert (forall written, Forall (writes_to (File (filename del))) written ->
            file_output written = written) as Hout.
  { induction 1 as [|e written He Hall IH]; [done|].
    destruct e; simpl in He; try done; subst; unfold file_output in *; simpl;
      by rewrite IH. }
  intros Ha. acted_cases Ha as Hp Hw;
    try (pose proof (rendered_writes _ _ _ _ Hw) as Hall;
         pose proof (Hout _ Hall) as Hfo;
         apply rendered_quiet in Hw as (_ & Hwp & Hwc & Hwcl & _));
    unfold publishes, creates, closes, file_output in *;
    rewrite ?omap_app, ?List.filter_app, ?Hwp, ?Hwc, ?Hwcl, ?Hfo; simpl;
    rewrite ?app_nil_r;
    (split; [lia|]); (split; [eauto|]); (split; [auto|]); (split; [done|]);
    try done; apply Forall_nil_2.
Qed.
End Dispositions.

Section Dispositions2.
Context `{Library} (env : Env).

Lemma stdout_quiet (t : list Event) :
  Forall (writes_to Stdout) t ->
  publishes t = [] /\ file_output t = [] /\ stdout_output t = t.
Proof.
  induction 1 as [|e t He Ht (IHp & IHf & IHs)]; [done|].
  destruct e; simpl in He; try done; subst;
    unfold publishes, file_output, stdout_output in *; simpl; by rewrite ?IHs.
Qed.

(** X9. The acknowledgement is the last thing [process] does: when a
    run of [process] acknowledges, that call ends the run, every call
    before it succeeded (the publish, or the creation, the writes and the
    closing of the file), and what [process] returns is what the
    acknowledgement returned. *)
Theorem X9_acknowledge_last (del : Delivery.t) (h : list Event)
    (o : Outcome unit) (t : list Event) :
  process env del h = (o, t) ->
  acks t ≠ [] ->
  exists pre r,
    t = pre ++ [EAck (Delivery.DeliveryTag del) false r] /\
    failures pre = [] /\ acks pre = [] /\ o = done_or r.
Proof.
  intros Hrun Hne.
  apply process_inv in Hrun as (r0 & shown & display & rest & -> & Hd & Ha).
  assert (Forall (writes_to Stdout) (announced del r0 :: display)) as Hpre.
  { apply Forall_cons_2; [done|]. by eapply rendered_writes. }
  pose proof (stdout_failures _ Hpre) as Hf.
  destruct (writes_quiet _ _ Hpre) as (Hacks & _).
  rewrite app_comm_cons in *.
  assert (acks rest ≠ []) as Hrest.
  { unfold acks in *. by rewrite omap_app, Hacks in Hne. }
  destruct Ha as [(_ & _ & ->)|[_ Ha]]; [by destruct Hrest|].
  destruct (acted_ack_last del o rest Ha Hrest) as (pre & r & -> & Hfp & Hap & ->).
  exists ((announced del r0 :: display) ++ pre), r.
  rewrite <- app_assoc. repeat split; try done.
  - unfold failures in *. by rewrite omap_app, Hf, Hfp.
  - unfold acks in *. by rewrite omap_app, Hacks, Hap.
Qed.

(** X10. A run of [process] carries out one disposition: it publishes
    at most once, creates at most one file, which is the one [filename]
    names, never both publishes and creates a file, and sends output to
    no file but the one it created. *)
Theorem X10_one_disposition (del : Delivery.t) (h : list Event)
    (o : Outcome unit) (t : list Event) :
  process env del h = (o, t) ->
  (length (publishes t) <= 1)%nat /\
  (creates t = [] \/ exists r, creates t = [(filename del, r)]) /\
  (publishes t = [] \/ creates t = []) /\
  (creates t = [] -> file_output t = [] /\ closes t = []) /\
  Forall (fun e => writes_to (File (filename del)) e) (file_output t).
Proof.
  intros Hrun.
  apply process_inv in Hrun as (r0 & shown & display & rest & -> & Hd & Ha).
  assert (Forall (writes_to Stdout) (announced del r0 :: display)) as Hpre.
  { apply Forall_cons_2; [done|]. by eapply rendered_writes. }
  destruct (writes_quiet _ _ Hpre) as (_ & Hcr & Hcl & _).
  destruct (stdout_quiet _ Hpre) as (Hpub & Hfile & _).
  rewrite app_comm_cons.
  unfold publishes, creates, closes, file_output in *.
  rewrite !omap_app, List.filter_app, Hcr, Hcl, Hpub, Hfile. simpl.
  destruct Ha as [(_ & _ & ->)|[_ Ha]]; [|apply (acted_one_disposition del o rest Ha)].
  simpl. split; [lia|]. split; [by left|]. split; [by left|]. split; [done|].
  apply Forall_nil_2.
Qed.
End Dispositions2.

Lemma X9_acknowledge_last_witness :
  exists pre, queueRun.2 = pre ++ [EAck 7 false None].
Proof.
  destruct (@X9_acknowledge_last sampleLibrary (calm [] [0]) sampleDelivery []
              queueRun.1 queueRun.2 eq_refl ltac:(vm_compute; discriminate))
    as (pre & r & Heq & _ & _ & Hr).
  exists pre. rewrite Heq. do 2 f_equal.
  destruct r; [|done]. vm_compute in Hr. discriminate.
Defined.

Lemma X10_one_disposition_witness :
  creates saveRun.2 = [("dead-letter-m1.txt", None)] /\ publishes saveRun.2 = [].
Proof.
  split; [vm_compute; reflexivity|].
  destruct (@X10_one_disposition sampleLibrary (calm [] [1]) sampleDelivery []
              saveRun.1 saveRun.2 eq_refl) as (_ & _ & [Hp|Hc] & _); [done|].
  vm_compute in Hc. discriminate.
Defined.

(** ** The saved file *)

Section Saved.
Context `{Library} (env : Env).

Lemma done_or_ok (r : option string) : done_or r = Ok tt -> r = None.
Proof. by destruct r. Qed.

Lemma rendering_retarget (f f' : Writer) (del : Delivery.t) :
  retarget f <$> rendering f' del = rendering f del.
Proof. unfold rendering, tables. simpl. by destruct (payload_text del). Qed.

Lemma rendering_file_output (name : string) (del : Delivery.t) :
  file_output (rendering (File name) del) = rendering (File name) del /\
  stdout_output (rendering (File name) del) = [].
Proof. unfold rendering, tables. simpl. by destruct (payload_text del). Qed.

(** A run from the prompt on that created a file and returned nil. *)
Lemma acted_saved (del : Delivery.t) (t : list Event) :
  acted del (Ok tt) t -> creates t ≠ [] ->
  exists answer,
    t = [asked del (inr answer); ECreate (filename del) None] ++
        rendering (File (filename del)) del ++
        [EClose (filename del) None; EAck (Delivery.DeliveryTag del) false None].
Proof.
  intros Ha. remember (Ok tt) as o eqn:Ho.
  acted_cases Ha as Hp Hw; try done;
    try (apply done_or_ok in Ho as ->); unfold creates; simpl; try done.
  intros _. apply rendered_ok in Hw as ->. by exists answer.
Qed.

(** X11. What is saved is what is shown.  When [process] returns nil
    after creating the file, the output sent to the file is the whole
    rendering of the delivery (the three sections), and the file was
    closed; when in addition no write to standard output failed, the
    screen got the same rendering after the MESSAGE line, write for
    write. *)
Theorem X11_saved_file_is_rendering (del : Delivery.t) (h : list Event) (t : list Event) :
  process env del h = (Ok tt, t) ->
  creates t ≠ [] ->
  file_output t = rendering (File (filename del)) del /\
  closes t = [(filename del, None)] /\
  (failed_writes t = [] ->
   stdout_output t = announced del None :: rendering Stdout del /\
   file_output t = retarget (File (filename del)) <$> tail (stdout_output t)).
Proof.
  intros Hrun Hcr.
  apply process_inv in Hrun as (r0 & shown & display & rest & -> & Hd & Ha).
  assert (Forall (writes_to Stdout) (announced del r0 :: display)) as Hpre.
  { apply Forall_cons_2; [done|]. by eapply rendered_writes. }
  destruct (writes_quiet _ _ Hpre) as (_ & Hc & Hcl & _).
  destruct (stdout_quiet _ Hpre) as (_ & Hfile & Hout).
  rewrite app_comm_cons in *.
  assert (creates rest ≠ []) as Hrest.
  { unfold creates in *. by rewrite omap_app, Hc in Hcr. }
  destruct Ha as [(_ & ? & _)|[Hshown Ha]]; [done|].
  destruct (acted_saved del rest Ha Hrest) as (answer & ->).
  destruct (rendering_file_output (filename del) del) as [Hfo Hso].
  assert (file_output ((announced del r0 :: display) ++
            [asked del (inr answer); ECreate (filename del) None] ++
            rendering (File (filename del)) del ++
            [EClose (filename del) None; EAck (Delivery.DeliveryTag del) false None])
          = rendering (File (filename del)) del) as Hfiles.
  { unfold file_output in *. rewrite !List.filter_app, Hfile, Hfo. simpl.
    by rewrite app_nil_r. }
  split; [done|]. split.
  { assert (closes (rendering (File (filename del)) del) = []) as Hrc.
    { unfold rendering, tables. simpl. by destruct (payload_text del). }
    unfold closes in *. by rewrite !omap_app, Hcl, Hrc. }
  intros Hfw.
  assert (failed_writes (announced del r0 :: display) = []) as Hfw'.
  { unfold failed_writes in *. rewrite omap_app in Hfw. by apply app_eq_nil in Hfw as [? _]. }
  assert (r0 = None) as -> by (destruct r0; [done|reflexivity]).
  assert (display = rendering Stdout del) as ->.
  { destruct (rendered_quiet _ _ _ _ Hd) as (_ & _ & _ & _ & _ & Hq).
    assert (failed_writes display = []) as Hdf by done.
    rewrite Hdf in Hq.
    destruct (rendered_outcome _ _ _ _ Hd) as [->|[[msg ->]| ->]]; [|done..].
    by apply rendered_ok. }
  assert (stdout_output ((announced del None :: rendering Stdout del) ++
            [asked del (inr answer); ECreate (filename del) None] ++
            rendering (File (filename del)) del ++
            [EClose (filename del) None; EAck (Delivery.DeliveryTag del) false None])
          = announced del None :: rendering Stdout del) as Hscreen.
  { unfold stdout_output in *. rewrite !List.filter_app, Hout, Hso. simpl.
    by rewrite app_nil_r. }
  split; [done|]. rewrite Hfiles, Hscreen. symmetry. apply rendering_retarget.
Qed.
End Saved.

Lemma X11_saved_file_is_rendering_witness :
  file_output saveRun.2 = @rendering sampleLibrary (File "dead-letter-m1.txt") sampleDelivery.
Proof.
  assert (creates saveRun.2 ≠ []) as Hcr by (vm_compute; discriminate).
  assert (@process sampleLibrary (calm [] [1]) sampleDelivery [] = (Ok tt, saveRun.2))
    as Hrun by (vm_compute; reflexivity).
  exact (proj1 (@X11_saved_file_is_rendering sampleLibrary (calm [] [1]) sampleDelivery []
                  saveRun.2 Hrun Hcr)).
Defined.

(** ** The loop, message by message *)

Lemma failures_app (t1 t2 : list Event) :
  failures (t1 ++ t2) = failures t1 ++ failures t2.
Proof. apply omap_app. Qed.

Section LoopFacts.
Context `{Library}.

Lemma processed_fail_fast (del : Delivery.t) (o : Outcome unit) (t : list Event) :
  processed del o t ->
  match o with
  | Ok _ | Panic => failures t = []
  | Fail e =>
      exists pre x msg,
        t = pre ++ [x] /\ e = errExternal msg /\
        failures pre = [] /\ failures [x] = [msg]
  | OutOfFuel => False
  end.
Proof.
  destruct 1 as [r0 display Hd|r0 shown display rest o Hd Hshown Ha];
    (assert (failures (announced del r0 :: display) = []) as Hpre;
     [apply stdout_failures; apply Forall_cons_2; [done|]; by eapply rendered_writes|]);
    [done|].
  pose proof (acted_fail_fast del o rest Ha) as Hff.
  rewrite app_comm_cons.
  destruct o as [[]|e| |]; try done.
  - unfold failures in *. by rewrite omap_app, Hpre, Hff.
  - destruct Hff as (pre & x & msg & -> & -> & Hp & Hx).
    exists ((announced del r0 :: display) ++ pre), x, msg.
    rewrite <- app_assoc. repeat split; try done;
      unfold failures in *; by rewrite omap_app, Hpre, Hp.
  - unfold failures in *. by rewrite omap_app, Hpre, Hff.
Qed.

Lemma stdout_acked (t : list Event) :
  Forall (writes_to Stdout) t -> acked_tags t = [] /\ delivered t = [].
Proof.
  induction 1 as [|e t He Ht [IHa IHd]]; [done|].
  destruct e; simpl in He; try done; subst; unfold acked_tags, delivered in *; by simpl.
Qed.

(** From the prompt on: one prompt, no fetch, and the delivery's tag
    acknowledged exactly when the run returns nil. *)
Lemma acted_acked (del : Delivery.t) (o : Outcome unit) (t : list Event) :
  acted del o t ->
  delivered t = [] /\ length (answers t) = 1%nat /\
  acked_tags t = match o with Ok _ => [Delivery.DeliveryTag del] | _ => [] end.
Proof.
  assert (forall f shown written, rendered f del shown written ->
            delivered written = [] /\ acked_tags written = [] /\ answers written = [])
    as Hquiet.
  { intros f shown written Hr. apply rendered_writes in Hr.
    induction Hr as [|e written He Hr (IH1 & IH2 & IH3)]; [done|].
    destruct e; simpl in He; try done;
      unfold delivered, acked_tags, answers in *; by simpl. }
  intros Ha. acted_cases Ha as Hp Hw;
    try (destruct (Hquiet _ _ _ Hw) as (Hd & Hk & Hs));
    unfold delivered, acked_tags, answers in *;
    rewrite ?omap_app, ?Hd, ?Hk, ?Hs; try destruct r; done.
Qed.

Lemma processed_acked (del : Delivery.t) (o : Outcome unit) (t : list Event) :
  processed del o t ->
  delivered t = [] /\
  (length (answers t) <= 1)%nat /\ (o ≠ Panic -> length (answers t) = 1%nat) /\
  acked_tags t = match o with Ok _ => [Delivery.DeliveryTag del] | _ => [] end.
Proof.
  destruct 1 as [r0 display Hd|r0 shown display rest o Hd Hshown Ha];
    (assert (Forall (writes_to Stdout) (announced del r0 :: display)) as Hpre;
     [apply Forall_cons_2; [done|]; by eapply rendered_writes|]);
    destruct (stdout_acked _ Hpre) as [Hk Hdl];
    pose proof (stdout_answers _ Hpre) as Hs.
  { rewrite Hk, Hdl, Hs. split; [done|]. split; [simpl; lia|]. by split. }
  destruct (acted_acked _ _ _ Ha) as (Hd' & Hs' & Hk').
  rewrite app_comm_cons. unfold delivered, acked_tags, answers in *.
  rewrite !omap_app, Hk, Hdl, Hs, Hd', Hk'. simpl. rewrite Hs'.
  split; [done|]. split; [lia|]. by split.
Qed.

(** The loop stops at the first call that fails and returns its error. *)
Lemma looped_fail_fast (queue : string) (fuel : nat) (o : Outcome unit) (t : list Event) :
  looped queue fuel o t ->
  match o with
  | Fail e =>
      exists pre x msg,
        t = pre ++ [x] /\ e = errExternal msg /\
        failures pre = [] /\ failures [x] = [msg]
  | _ => failures t = []
  end.
Proof.
  induction 1 as [|fuel|fuel del ok msg|fuel del r|fuel del o t Hp Ho
                 |fuel del t o t' Hp Hl IH].
  - done.
  - done.
  - by exists [EDone false], (EGet queue false (del, ok, Some msg)), msg.
  - done.
  - apply processed_fail_fast in Hp. destruct o as [[]|e| |]; try done.
    destruct Hp as (pre & x & msg & -> & -> & Hpre & Hx).
    exists ([EDone false; EGet queue false (del, true, None)] ++ pre), x, msg.
    rewrite <- app_assoc. repeat split; try done;
      unfold failures in *; by rewrite omap_app, Hpre.
  - apply processed_fail_fast in Hp. simpl in Hp.
    assert (failures ([EDone false; EGet queue false (del, true, None)] ++ t) = []) as Hpre.
    { by rewrite failures_app, Hp. }
    rewrite app_assoc.
    destruct o as [[]|e| |]; try (by rewrite failures_app, Hpre, IH).
    destruct IH as (pre & x & msg & -> & -> & Hpre' & Hx).
    exists (([EDone false; EGet queue false (del, true, None)] ++ t) ++ pre), x, msg.
    split; [by rewrite <- !app_assoc|]. split; [done|]. split; [|done].
    by rewrite failures_app, Hpre, Hpre'.
Qed.

(** The loop acknowledges the messages in the order it fetched them,
    with at most the last one left, and none left when it returns nil;
    each fetched message is prompted for once, the last one apart when
    its display panicked. *)
Lemma looped_acked (queue : string) (fuel : nat) (o : Outcome unit) (t : list Event) :
  looped queue fuel o t ->
  acked_tags t `prefix_of` (Delivery.DeliveryTag <$> delivered t) /\
  (length (delivered t) <= S (length (acked_tags t)))%nat /\
  (o = Ok tt -> acked_tags t = Delivery.DeliveryTag <$> delivered t) /\
  (length (answers t) <= length (delivered t) <= S (length (answers t)))%nat /\
  (o ≠ Panic -> length (answers t) = length (delivered t)).
Proof.
  induction 1 as [|fuel|fuel del ok msg|fuel del r|fuel del o t Hp Ho
                 |fuel del t o t' Hp Hl (IHp & IHl & IHo & IHa & IHe)].
  - split; [apply prefix_nil|]. split; [simpl; lia|]. split; [done|]. split; [simpl; lia|done].
  - split; [apply prefix_nil|]. split; [simpl; lia|]. split; [done|]. split; [simpl; lia|done].
  - destruct ok; (split; [apply prefix_nil|]); (split; [simpl; lia|]); (split; [done|]);
      (split; [simpl; lia|done]).
  - split; [apply prefix_nil|]. split; [simpl; lia|]. split; [done|]. split; [simpl; lia|done].
  - destruct (processed_acked _ _ _ Hp) as (Hd & Hle & Hs & Hk).
    unfold delivered, acked_tags, answers in *. rewrite !omap_app, Hd, Hk. simpl.
    split; [destruct o as [[]|e| |]; try done; apply prefix_nil|].
    split; [lia|]. split; [done|]. split; [lia|].
    intros Hne. by rewrite (Hs Hne).
  - destruct (processed_acked _ _ _ Hp) as (Hd & Hle & Hs & Hk).
    unfold delivered, acked_tags, answers in *.
    rewrite !omap_app, Hd, Hk, !length_app, (Hs ltac:(done)). simpl.
    split; [by apply prefix_cons|]. split; [lia|]. split; [|split; [lia|]].
    + intros Ho. by rewrite (IHo Ho).
    + intros Hne. by rewrite (IHe Hne).
Qed.
End LoopFacts.

Section LoopTheorems.
Context `{Library} (env : Env).

Lemma looped_nil_end (queue : string) (fuel : nat) (t : list Event) :
  looped queue fuel (Ok tt) t ->
  (exists pre, t = pre ++ [EDone true]) \/
  (exists pre del r,
     t = pre ++ [EDone false; EGet queue false (del, false, None); drained r]).
Proof.
  intros Hl. remember (Ok tt) as o eqn:Ho.
  induction Hl as [|fuel|fuel del ok msg|fuel del r|fuel del o t Hp Hne
                  |fuel del t o t' Hp Hl IH]; try done.
  - left. by exists [].
  - right. by exists [], del, r.
  - destruct (IH Ho) as [(pre & ->)|(pre & del' & r & ->)].
    + left. exists ([EDone false; EGet queue false (del, true, None)] ++ t ++ pre).
      by rewrite <- !app_assoc.
    + right. exists ([EDone false; EGet queue false (del, true, None)] ++ t ++ pre), del', r.
      by rewrite <- !app_assoc.
Qed.

(** X12. [work] returns nil for two reasons only: its last call was a
    poll that saw the cancellation, or its last calls were a poll, a
    fetch that found the queue empty, and the notice. *)
Theorem X12_loop_returns_nil_only_when_done (fuel : nat) (queue : string)
    (h : list Event) (t : list Event) :
  work env fuel queue h = (Ok tt, t) ->
  (exists pre, t = pre ++ [EDone true]) \/
  (exists pre del r,
     t = pre ++ [EDone false; EGet queue false (del, false, None); drained r]).
Proof. intros Hrun. by apply work_looped, looped_nil_end in Hrun. Qed.


(** X14. [work] stops at the first call that fails: when it returns an
    error, that error is the one of its last call and no call before it
    had failed (writes to standard output apart); in every other case no
    call failed. *)
Theorem X14_loop_fail_fast (fuel : nat) (queue : string)
    (h : list Event) (o : Outcome unit) (t : list Event) :
  work env fuel queue h = (o, t) ->
  (forall e, o = Fail e ->
     exists pre x msg,
       t = pre ++ [x] /\ e = errExternal msg /\ failures pre = [] /\ failures [x] = [msg]) /\
  ((forall e, o ≠ Fail e) -> failures t = []).
Proof.
  intros Hrun. apply work_looped, looped_fail_fast in Hrun.
  split.
  - by intros e ->.
  - intros Hne. destruct o as [[]|e| |]; try done. by destruct (Hne e).
Qed.
End LoopTheorems.

Lemma X12_loop_returns_nil_only_when_done_witness :
  exists pre,
    drainRun.2 = pre ++ [EDone false; EGet "dlq" false (emptyDelivery, false, None);
                         drained None].
Proof.
  destruct (@X12_loop_returns_nil_only_when_done sampleLibrary
              (calm [sampleDelivery] [2]) 5 "dlq" [] drainRun.2
              ltac:(vm_compute; reflexivity)) as [(pre & Heq)|(pre & del & r & Heq)].
  - apply (f_equal last) in Heq. rewrite last_snoc in Heq. vm_compute in Heq. discriminate.
  - exists pre. rewrite Heq. do 2 f_equal.
    assert (reverse drainRun.2 =
            reverse (pre ++ [EDone false; EGet "dlq" false (del, false, None); drained r]))
      as Hrev by (by rewrite Heq).
    rewrite reverse_app in Hrev. vm_compute in Hrev.
    injection Hrev as <- <- _. reflexivity.
Defined.


Lemma X14_loop_fail_fast_witness : failures drainRun.2 = [].
Proof.
  apply (@X14_loop_fail_fast sampleLibrary (calm [sampleDelivery] [2]) 5 "dlq"
           [] drainRun.1 drainRun.2 eq_refl).
  intros e. vm_compute. discriminate.
Defined.

Section RunFacts.
Context `{Library}.

Lemma stdout_no_setup (t : list Event) :
  Forall (writes_to Stdout) t -> setup_calls t = [] /\ gets t = [].
Proof.
  induction 1 as [|e t He Ht [IHs IHg]]; [done|].
  destruct e; simpl in He; try done; subst; unfold setup_calls, gets in *; by simpl.
Qed.

Lemma acted_no_setup (del : Delivery.t) (o : Outcome unit) (t : list Event) :
  acted del o t -> setup_calls t = [] /\ gets t = [].
Proof.
  assert (forall f shown written, rendered f del shown written ->
            setup_calls written = [] /\ gets written = [])
    as Hquiet.
  { intros f shown written Hr. apply rendered_writes in Hr.
    induction Hr as [|e written He Hr (IH1 & IH2)]; [done|].
    destruct e; simpl in He; try done;
      unfold setup_calls, gets in *; by simpl. }
  intros Ha. acted_cases Ha as Hp Hw;
    try (destruct (Hquiet _ _ _ Hw) as (Hs & Hg));
    unfold setup_calls, gets in *;
    rewrite ?omap_app, ?Hs, ?Hg; done.
Qed.

Lemma processed_no_setup (del : Delivery.t) (o : Outcome unit) (t : list Event) :
  processed del o t -> setup_calls t = [] /\ gets t = [].
Proof.
  destruct 1 as [r0 display Hd|r0 shown display rest o Hd Hshown Ha];
    (assert (Forall (writes_to Stdout) (announced del r0 :: display)) as Hpre;
     [apply Forall_cons_2; [done|]; by eapply rendered_writes|]);
    destruct (stdout_no_setup _ Hpre) as [Hs Hg]; [done|].
  destruct (acted_no_setup _ _ _ Ha) as [Hs' Hg'].
  rewrite app_comm_cons. unfold setup_calls, gets in *.
  by rewrite !omap_app, Hs, Hg, Hs', Hg'.
Qed.

(** The loop neither dials nor opens a channel, and every fetch it
    makes names its queue and asks for no automatic acknowledgement. *)
Lemma looped_no_setup (queue : string) (fuel : nat) (o : Outcome unit) (t : list Event) :
  looped queue fuel o t ->
  setup_calls t = [] /\ Forall (fun g => g.1.1 = (queue, false)) (gets t).
Proof.
  induction 1 as [|fuel|fuel del ok msg|fuel del r|fuel del o t Hp Ho
                 |fuel del t o t' Hp Hl (IHs & IHg)].
  - done.
  - done.
  - split; [done|]. by apply Forall_singleton.
  - split; [done|]. by apply Forall_singleton.
  - destruct (processed_no_setup _ _ _ Hp) as [Hs Hg].
    unfold setup_calls, gets in *. rewrite !omap_app, Hs, Hg. simpl.
    split; [done|]. by apply Forall_singleton.
  - destruct (processed_no_setup _ _ _ Hp) as [Hs Hg].
    unfold setup_calls, gets in *. rewrite !omap_app, Hs, Hg. simpl.
    split; [done|]. by apply Forall_cons_2.
Qed.
End RunFacts.

Section RunTheorems.
Context `{Library} (env : Env).

(** How a run with usable inputs goes: the dial fails, or the channel
    fails, or the loop runs after the three calls that set it up. *)
Lemma run_cases (fuel : nat) (args : list string) (o : Outcome unit) (t : list Event) :
  usable args = true ->
  run env fuel args [] = (o, t) ->
  let url := nth 1 args "" in
  let queue := nth 2 args "" in
  (exists msg, o = Fail (errExternal msg) /\ t = [EDial url (Some msg)]) \/
  (exists msg, o = Fail (errExternal msg) /\ t = [EDial url None; EChannel (Some msg)]) \/
  (exists rest,
     t = [EDial url None; EChannel None; ENotify] ++ rest /\ looped queue fuel o rest).
Proof.
  intros Hu Hrun.
  apply usable_inv in Hu as (prog & url & queue & -> & Hurl & Hqueue).
  rewrite (run_usable env fuel prog url queue [] Hurl Hqueue) in Hrun. simpl.
  destruct (env_dial env [] url) as [msg|].
  { injection Hrun as <- <-. left. by exists msg. }
  destruct (env_channel env _) as [msg|].
  { injection Hrun as <- <-. right. left. by exists msg. }
  simpl in Hrun.
  destruct (work env fuel queue _) as [o' t'] eqn:Hw.
  injection Hrun as <- <-.
  right. right. exists t'. split; [done|]. by apply work_looped in Hw.
Qed.

(** How [run] ends: with the usage error and no call made; with the
    error of its last call, the only one that failed; or with no failed
    call at all. *)
Lemma run_failures (fuel : nat) (args : list string) (o : Outcome unit) (t : list Event) :
  run env fuel args [] = (o, t) ->
  match o with
  | Fail e =>
      (usable args = false /\ e = errUsage /\ t = []) \/
      (usable args = true /\
       exists pre x msg,
         t = pre ++ [x] /\ e = errExternal msg /\ failures pre = [] /\ failures [x] = [msg])
  | _ => usable args = true /\ failures t = []
  end.
Proof.
  intros Hrun. destruct (usable args) eqn:Hu.
  - destruct (run_cases fuel args o t Hu Hrun)
      as [(msg & -> & ->)|[(msg & -> & ->)|(rest & -> & Hl)]].
    + right. split; [done|]. by exists [], (EDial (nth 1 args "") (Some msg)), msg.
    + right. split; [done|].
      by exists [EDial (nth 1 args "") None], (EChannel (Some msg)), msg.
    + apply looped_fail_fast in Hl.
      destruct o as [[]|e| |]; try (split; [done|]; by rewrite failures_app, Hl).
      destruct Hl as (pre & x & msg & -> & -> & Hpre & Hx).
      right. split; [done|].
      exists ([EDial (nth 1 args "") None; EChannel None; ENotify] ++ pre), x, msg.
      split; [by rewrite <- app_assoc|]. split; [done|]. split; [|done].
      by rewrite failures_app, Hpre.
  - rewrite (run_unusable env fuel args [] Hu) in Hrun. injection Hrun as <- <-.
    by left.
Qed.

Lemma main_run (fuel : nat) (args : list string) (o : Outcome unit) (t : list Event) :
  run env fuel args [] = (o, t) ->
  main env fuel args =
    match o with
    | Ok _ => (Some 0, t)
    | Fail e =>
        (Some 1,
         t ++ [EWrite Stdout (error_string e +:+ newline)
                 (env_write env t Stdout (error_string e +:+ newline))])
    | Panic => (Some 2, t)
    | OutOfFuel => (None, t)
    end.
Proof. intros Hrun. unfold main. rewrite Hrun. by destruct o. Qed.

Lemma failures_elem (t : list Event) (e : Event) (msg : string) :
  e ∈ t -> failures [e] = [msg] -> msg ∈ failures t.
Proof.
  intros (l1 & l2 & ->)%list_elem_of_split He.
  change (e :: l2) with ([e] ++ l2). rewrite !failures_app, He. set_solver.
Qed.

(** C8. [run] returns the usage error, having made no call at all,
    exactly when the process did not get two positional inputs that are
    both non-empty, and [main] then prints the usage line and exits
    with status 1; with usable inputs the first call dials the broker
    at the first input.  Every call that returns an error is fatal
    (a dial, a channel, a fetch, a prompt, a publish, an
    acknowledgement, a file creation, write or close; writes to standard
    output apart, whose errors the program drops): it is the only one in
    the run, it is the last call before [main] prints its error, and
    the exit status is 1; so is an error that the prompt returns, as
    when the operator interrupts it.  Status 1 has no other cause.
    When the last poll saw the cancellation or the last fetch found the
    queue empty, the exit status is 0. *)
Theorem C8_usage_and_exit_status (fuel : nat) (args : list string) :
  let usage := error_string errUsage +:+ newline in
  (run env fuel args [] = (Fail errUsage, []) <-> usable args = false) /\
  ((run env fuel args []).1 = Fail errUsage <-> usable args = false) /\
  (usable args = false ->
   main env fuel args = (Some 1, [EWrite Stdout usage (env_write env [] Stdout usage)])) /\
  (usable args = true ->
   exists r rest, (main env fuel args).2 = EDial (nth 1 args "") r :: rest) /\
  (forall (status : option Z) (t : list Event) (msg : string),
     main env fuel args = (status, t) -> msg ∈ failures t ->
     status = Some 1 /\ failures t = [msg] /\
     exists pre x r,
       t = pre ++ [x; EWrite Stdout (msg +:+ newline) r] /\
       failures pre = [] /\ failures [x] = [msg]) /\
  (forall (status : option Z) (t : list Event) (message msg : string)
          (options : list string),
     main env fuel args = (status, t) -> EAsk message options (inl msg) ∈ t ->
     status = Some 1) /\
  (forall t : list Event,
     main env fuel args = (Some 1, t) -> usable args = false \/ failures t ≠ []) /\
  (forall (status : option Z) (t : list Event),
     main env fuel args = (status, t) ->
     last (polls t) = Some true \/
     (exists q, last (gets t) = Some (q, false, false, None)) ->
     status = Some 0).
Proof.
  intros usage.
  destruct (run env fuel args []) as [o t0] eqn:Hrun.
  pose proof (run_failures fuel args o t0 Hrun) as Hfail.
  pose proof (run_outcome env fuel args o t0 Hrun) as Hout.
  rewrite (main_run fuel args o t0 Hrun).
  assert (forall (status : option Z) (t : list Event) (msg : string),
            match o with
            | Ok _ => (Some 0, t0)
            | Fail e =>
                (Some 1,
                 t0 ++ [EWrite Stdout (error_string e +:+ newline)
                          (env_write env t0 Stdout (error_string e +:+ newline))])
            | Panic => (Some 2, t0)
            | OutOfFuel => (None, t0)
            end = (status, t) -> msg ∈ failures t ->
            status = Some 1 /\ failures t = [msg] /\
            exists pre x r,
              t = pre ++ [x; EWrite Stdout (msg +:+ newline) r] /\
              failures pre = [] /\ failures [x] = [msg]) as Hfatal.
  { intros status t msg Hmain Hin.
    destruct o as [[]|e| |]; injection Hmain as <- <-;
      try (destruct Hfail as [_ Hnone]; rewrite Hnone in Hin; by apply elem_of_nil in Hin).
    rewrite failures_app in Hin. simpl in Hin. rewrite app_nil_r in Hin.
    destruct Hfail as [(_ & _ & ->)|(_ & pre & x & msg' & -> & -> & Hpre & Hx)];
      [by apply elem_of_nil in Hin|].
    rewrite failures_app, Hpre, Hx in Hin. apply list_elem_of_singleton in Hin as ->.
    split; [done|]. split.
    + by rewrite !failures_app, Hpre, Hx.
    + exists pre, x, (env_write env (pre ++ [x]) Stdout (msg' +:+ newline)).
      split; [by rewrite <- app_assoc|done]. }
  split; [|split; [|split; [|split; [|split; [|split; [|split]]]]]].
  - destruct Hout as [(Hu & -> & ->)|(Hu & Ho & _)]; [done|].
    split; [|congruence]. by intros [= -> _].
  - simpl. destruct Hout as [(Hu & -> & ->)|(Hu & Ho & _)]; [done|].
    split; [done|congruence].
  - intros Hu. destruct Hout as [(_ & -> & ->)|(Hu' & _)]; [done|congruence].
  - intros Hu. destruct Hout as [(Hu' & _)|(_ & _ & (url & r & rest & ->) & _)];
      [congruence|].
    assert (url = nth 1 args "") as ->.
    { destruct (run_cases fuel args o _ Hu Hrun)
        as [(? & _ & [= -> _])|[(? & _ & [= -> _])|(? & [= -> _] & _)]]; done. }
    destruct o as [[]|e| |]; simpl; eauto.
  - exact Hfatal.
  - intros status t message msg options Hmain Hin.
    apply (Hfatal status t msg Hmain), (failures_elem _ _ _ Hin). reflexivity.
  - intros t Hmain.
    destruct o as [[]|e| |]; simplify_eq.
    destruct Hfail as [(Hu & _)|(_ & pre & x & msg & -> & -> & Hpre & Hx)]; [by left|].
    right. rewrite !failures_app, Hpre, Hx. done.
  - intros status t Hmain Hlast.
    destruct Hout as [(_ & -> & ->)|(_ & _ & _ & Hp & Hg)].
    { injection Hmain as <- <-. by destruct Hlast as [?|[q ?]]. }
    assert (o = Ok tt) as ->; [|by injection Hmain as <- <-].
    destruct o as [[]|e| |]; injection Hmain as <- <-; try done;
      try (destruct Hlast as [Hlast|[q Hlast]]; [by apply Hp|by apply (Hg q)]).
    assert (polls (t0 ++ [EWrite Stdout (error_string e +:+ newline)
                            (env_write env t0 Stdout (error_string e +:+ newline))])
            = polls t0) as Hpolls.
    { unfold polls. rewrite omap_app. simpl. by rewrite app_nil_r. }
    assert (gets (t0 ++ [EWrite Stdout (error_string e +:+ newline)
                           (env_write env t0 Stdout (error_string e +:+ newline))])
            = gets t0) as Hgets.
    { unfold gets. rewrite omap_app. simpl. by rewrite app_nil_r. }
    rewrite Hpolls, Hgets in Hlast.
    destruct Hlast as [Hlast|[q Hlast]]; [by apply Hp|by apply (Hg q)].
Qed.

(** X15. [run] fetches only once it is connected: a run in which a
    message was fetched, or a poll made, began with a dial of the first
    input that succeeded, a channel that opened, and the interrupt
    handler installed; nothing of the three is done again, and every
    fetch names the second input as its queue and asks for no automatic
    acknowledgement. *)
Theorem X15_run_connects_once_then_fetches (fuel : nat) (args : list string)
    (o : Outcome unit) (t : list Event) :
  run env fuel args [] = (o, t) ->
  gets t ≠ [] \/ polls t ≠ [] ->
  exists rest,
    t = [EDial (nth 1 args "") None; EChannel None; ENotify] ++ rest /\
    setup_calls rest = [] /\
    Forall (fun g => g.1.1 = (nth 2 args "", false)) (gets t).
Proof.
  intros Hrun Hne. destruct (usable args) eqn:Hu.
  - destruct (run_cases fuel args o t Hu Hrun)
      as [(msg & _ & ->)|[(msg & _ & ->)|(rest & -> & Hl)]].
    + by destruct Hne.
    + by destruct Hne.
    + exists rest. split; [done|].
      by destruct (looped_no_setup _ _ _ _ Hl).
  - rewrite (run_unusable env fuel args [] Hu) in Hrun. injection Hrun as <- <-.
    by destruct Hne.
Qed.

(** X16. Exit status 0 means a clean run: when [main] ends with status
    0 the inputs were usable, no call returned an error (writes to
    standard output apart), every message fetched was acknowledged, in
    the order fetched, and the run ended on a cancellation or on an
    empty queue. *)
Theorem X16_exit_status_zero_is_clean (fuel : nat) (args : list string) (t : list Event) :
  main env fuel args = (Some 0, t) ->
  usable args = true /\
  failures t = [] /\
  acked_tags t = Delivery.DeliveryTag <$> delivered t /\
  ((exists pre, t = pre ++ [EDone true]) \/
   (exists pre del r,
      t = pre ++ [EDone false; EGet (nth 2 args "") false (del, false, None); drained r])).
Proof.
  unfold main. destruct (run env fuel args []) as [o t0] eqn:Hrun.
  destruct o as [[]|e| |]; try done. intros [= <-].
  destruct (usable args) eqn:Hu.
  2: { rewrite (run_unusable env fuel args [] Hu) in Hrun. done. }
  split; [done|].
  destruct (run_cases fuel args _ _ Hu Hrun)
    as [(msg & ? & _)|[(msg & ? & _)|(rest & -> & Hl)]]; try done.
  pose proof (looped_fail_fast _ _ _ _ Hl) as Hf. simpl in Hf.
  destruct (looped_acked _ _ _ _ Hl) as (_ & _ & Hk & _).
  split; [by rewrite failures_app, Hf|].
  split.
  - unfold acked_tags, delivered in *. rewrite !omap_app. simpl. by apply Hk.
  - destruct (looped_nil_end _ _ _ Hl) as [(pre & ->)|(pre & del & r & ->)].
    + left. by exists ([EDial (nth 1 args "") None; EChannel None; ENotify] ++ pre).
    + right. by exists ([EDial (nth 1 args "") None; EChannel None; ENotify] ++ pre), del, r.
Qed.

(** X17. Exit status 1 tells the first failure: when [main] ends with
    status 1 its last call prints one line, which is the usage line
    when the inputs were not usable (and then nothing else was done),
    and otherwise the error of the call just before it, the only call
    that returned an error. *)
Theorem X17_exit_status_one_reports_failure (fuel : nat) (args : list string)
    (t : list Event) :
  main env fuel args = (Some 1, t) ->
  exists pre line r,
    t = pre ++ [EWrite Stdout (line +:+ newline) r] /\
    ((usable args = false /\ pre = [] /\ line = error_string errUsage) \/
     (usable args = true /\
      exists pre' x, pre = pre' ++ [x] /\ failures pre' = [] /\ failures [x] = [line])).
Proof.
  unfold main. destruct (run env fuel args []) as [o t0] eqn:Hrun.
  destruct o as [[]|e| |]; try done. intros [= <-].
  exists t0, (error_string e), (env_write env t0 Stdout (error_string e +:+ newline)).
  split.
  { unfold Println, Fprintln, call, bind, ret. simpl. by rewrite ?app_nil_r. }
  destruct (usable args) eqn:Hu.
  - right. split; [done|].
    destruct (run_cases fuel args _ _ Hu Hrun)
      as [(msg & [= ->] & ->)|[(msg & [= ->] & ->)|(rest & -> & Hl)]].
    + by exists [], (EDial (nth 1 args "") (Some msg)).
    + by exists [EDial (nth 1 args "") None], (EChannel (Some msg)).
    + apply looped_fail_fast in Hl as (pre & x & msg & -> & -> & Hpre & Hx).
      exists ([EDial (nth 1 args "") None; EChannel None; ENotify] ++ pre), x.
      split; [by rewrite <- app_assoc|]. split; [|done].
      by rewrite failures_app, Hpre.
  - left. rewrite (run_unusable env fuel args [] Hu) in Hrun. by injection Hrun as <- <-.
Qed.
End RunTheorems.

Lemma X15_run_connects_once_then_fetches_witness :
  exists rest,
    cleanMain.2 = [EDial "amqp://broker" None; EChannel None; ENotify] ++ rest /\
    setup_calls rest = [].
Proof.
  destruct (@X15_run_connects_once_then_fetches sampleLibrary (calm [sampleDelivery] [2]) 5
              ["amqp-dead-letter"; "amqp://broker"; "dlq"] (Ok tt) cleanMain.2
              ltac:(vm_compute; reflexivity) ltac:(left; vm_compute; discriminate))
    as (rest & Heq & Hs & _).
  exists rest. exact (conj Heq Hs).
Defined.

Lemma X16_exit_status_zero_is_clean_witness :
  failures cleanMain.2 = [] /\ acked_tags cleanMain.2 = [7].
Proof.
  destruct (@X16_exit_status_zero_is_clean sampleLibrary (calm [sampleDelivery] [2]) 5
              ["amqp-dead-letter"; "amqp://broker"; "dlq"] cleanMain.2
              ltac:(vm_compute; reflexivity)) as (_ & Hf & Hk & _).
  split; [exact Hf|]. rewrite Hk. vm_compute. reflexivity.
Defined.

Lemma X17_exit_status_one_reports_failure_witness :
  exists pre line r,
    unreachableMain.2 = pre ++ [EWrite Stdout (line +:+ newline) r] /\
    failures pre = [line].
Proof.
  destruct (@X17_exit_status_one_reports_failure sampleLibrary unreachable 5
              ["amqp-dead-letter"; "amqp://broker"; "dlq"] unreachableMain.2
              ltac:(vm_compute; reflexivity))
    as (pre & line & r & Heq & [(Hu & _)|(_ & pre' & x & -> & Hpre & Hx)]).
  - vm_compute in Hu. discriminate Hu.
  - exists (pre' ++ [x]), line, r. split; [exact Heq|].
    rewrite failures_app, Hpre. exact Hx.
Defined.
